(** * PyIRC: the event bus, the line parser and the session controller

    A shallow embedding of [IrcBot.py].  Text is a Rocq [string] (one
    character per code point below 256); Python's [None]-or-[str] values are
    [option string]; a Python dict is a [gmap]; the socket, the console and
    the interpreter's exceptions are explicit state and outcomes. *)

From Stdlib Require Import Ascii ZArith Lia.
From stdpp Require Import base decidable option list strings pretty gmap.

(** ** Python's string methods used by the bot *)

(** [str.isspace] on one character, which is also the class [\s] of [re] on
    [str] patterns: the ASCII blanks and separators, NEL and NBSP. *)
Definition isspace (c : ascii) : bool :=
  match c with
  | "009" | "010" | "011" | "012" | "013"
  | "028" | "029" | "030" | "031" | " " | "133" | "160" => true
  | _ => false
  end%char.

(** [s.rstrip()] *)
Fixpoint rstrip (s : string) : string :=
  match s with
  | EmptyString => EmptyString
  | String c s' =>
      match rstrip s' with
      | EmptyString => if isspace c then EmptyString else String c EmptyString
      | r => String c r
      end
  end.

(** [s.lstrip()] *)
Fixpoint lstrip (s : string) : string :=
  match s with
  | EmptyString => EmptyString
  | String c s' => if isspace c then lstrip s' else s
  end.

(** [s.startswith(p)] *)
Fixpoint startswith (s p : string) {struct p} : bool :=
  match p, s with
  | EmptyString, _ => true
  | String a p', String c s' => if decide (a = c) then startswith s' p' else false
  | String _ _, EmptyString => false
  end.

(** [sub in s] on strings *)
Fixpoint str_in (sub s : string) : bool :=
  startswith s sub ||
  match s with
  | EmptyString => false
  | String _ s' => str_in sub s'
  end.

(** [s.split()]: the maximal runs of non-blank characters.  [w] is the run
    being read. *)
Fixpoint words (s w : string) : list string :=
  match s with
  | EmptyString => if decide (w = "") then [] else [w]
  | String c s' =>
      if isspace c
      then (if decide (w = "") then words s' "" else w :: words s' "")
      else words s' (w +:+ String c "")
  end.

Definition str_split (s : string) : list string := words s "".

(** [s.split(sep)] for a one-character separator: empty fields are kept. *)
Fixpoint fields (sep : ascii) (s w : string) : list string :=
  match s with
  | EmptyString => [w]
  | String c s' =>
      if decide (c = sep) then w :: fields sep s' ""
      else fields sep s' (w +:+ String c "")
  end.

Definition str_split_on (sep : ascii) (s : string) : list string := fields sep s "".

(** ['{0}'.format(v)] for a value that is [None] or a [str]. *)
Definition py_str (v : option string) : string :=
  match v with
  | Some s => s
  | None => "None"
  end.

(** ** Exceptions and outcomes *)

Inductive exn :=
  | AttributeError
  | IndexError
  | KeyError (key : string)
  | TypeError
  | ValueError (msg : string)
  | OSError (msg : string)
  | UnicodeDecodeError
  | RecursionError
  | SystemExit (code : Z).

Inductive outcome (A : Type) :=
  | Ok (a : A)
  | Raise (e : exn).
Arguments Ok {A} a.
Arguments Raise {A} e.

(** ** The regular expressions of [re] that the bot's pattern is built from

    Literals, greedy repetition of a character class ([+] is [Rep p 1],
    [*] is [Rep p 0]), greedy [?], concatenation and numbered capture
    groups.  Matching is the backtracking search of [re.match]: anchored at
    the start, each quantifier tries its longest choice first, and the first
    complete path gives the groups. *)
Inductive regex :=
  | Chr (c : ascii)
  | Rep (p : ascii -> bool) (lo : nat)
  | Opt (r : regex)
  | Cat (r1 r2 : regex)
  | Grp (i : nat) (r : regex).

(** The text consumed between the suffixes [s] and [s'] of the subject. *)
Fixpoint take_str (n : nat) (s : string) : string :=
  match n, s with
  | S n', String c s' => String c (take_str n' s')
  | _, _ => EmptyString
  end.

Definition consumed (s s' : string) : string :=
  take_str (String.length s - String.length s') s.

Definition groups := list (option string).

Section Matcher.
Context {R : Type}.

(** Greedy [p{lo,}] followed by the continuation [k]. *)
Fixpoint rep (p : ascii -> bool) (lo : nat) (s : string)
         (k : string -> option R) : option R :=
  match s with
  | String c s' =>
      if p c then
        match rep p (pred lo) s' k with
        | Some r => Some r
        | None => if decide (lo = 0) then k s else None
        end
      else if decide (lo = 0) then k s else None
  | EmptyString => if decide (lo = 0) then k s else None
  end.
End Matcher.

Fixpoint re_run (r : regex) (s : string) (g : groups)
         (k : string -> groups -> option groups) : option groups :=
  match r with
  | Chr c =>
      match s with
      | String c' s' => if decide (c = c') then k s' g else None
      | EmptyString => None
      end
  | Rep p lo => rep p lo s (fun s' => k s' g)
  | Opt r' =>
      match re_run r' s g k with
      | Some x => Some x
      | None => k s g
      end
  | Cat r1 r2 => re_run r1 s g (fun s' g' => re_run r2 s' g' k)
  | Grp i r' =>
      re_run r' s g (fun s' g' => k s' (<[pred i := Some (consumed s s')]> g'))
  end.

(** [compile(r).match(s)] then [.groups()], for a pattern of [n] groups. *)
Definition re_match (n : nat) (r : regex) (s : string) : option groups :=
  re_run r s (replicate n None) (fun _ g => Some g).

Declare Scope regex_scope.
Delimit Scope regex_scope with re.
Bind Scope regex_scope with regex.
Infix "⋅" := Cat (at level 41, right associativity) : regex_scope.

(** The character classes of the pattern. *)
Definition not_bang (c : ascii) : bool := negb (bool_decide (c = "!"%char)).
Definition non_space (c : ascii) : bool := negb (isspace c).
Definition marker (c : ascii) : bool :=
  bool_decide (c = ":"%char) || bool_decide (c = "+"%char) || bool_decide (c = "-"%char).
Definition dot (c : ascii) : bool := negb (bool_decide (c = "010"%char)).

(** [Bot.__pat], piece by piece in the order of the source literal:
    [:]  [([^!]+)]  [!]  [(\S+)]  [\s+]  [(\S+)]  [\s+]  [:?]  [(\S+)]  [\s*]
    and twice an optional non-capturing group made of [[:+-]+] and a
    captured [.*] (groups 5 and 6). *)
Definition pat : regex :=
  (Chr ":" ⋅ Grp 1 (Rep not_bang 1) ⋅ Chr "!" ⋅ Grp 2 (Rep non_space 1) ⋅
   Rep isspace 1 ⋅ Grp 3 (Rep non_space 1) ⋅
   Rep isspace 1 ⋅ Opt (Chr ":") ⋅ Grp 4 (Rep non_space 1) ⋅
   Rep isspace 0 ⋅
   Opt (Rep marker 1 ⋅ Grp 5 (Rep dot 0)) ⋅
   Opt (Rep marker 1 ⋅ Grp 6 (Rep dot 0)))%re.

Definition pat_match (data : string) : option groups := re_match 6 pat data.

(** ** [shlex.split] (POSIX mode, [whitespace_split], no comment characters)

    The token reader of the standard library as one pass over the text:
    [SBlank] is its state [' '], [SWord] its state ['a'], [SQuote q] an open
    quote, [SEscape back] the character after a backslash, [back] being the
    quote to return to (or [None] for ['a']). *)
Inductive shlex_state :=
  | SBlank
  | SWord
  | SQuote (q : ascii)
  | SEscape (back : option ascii).

Definition shlex_whitespace (c : ascii) : bool :=
  bool_decide (c = " "%char) || bool_decide (c = "009"%char) ||
  bool_decide (c = "013"%char) || bool_decide (c = "010"%char).
Definition shlex_quotes (c : ascii) : bool :=
  bool_decide (c = "'"%char) || bool_decide (c = "034"%char).
Definition shlex_escape (c : ascii) : bool := bool_decide (c = "\"%char).
Definition shlex_escapedquotes (c : ascii) : bool := bool_decide (c = "034"%char).

Definition emit (t : string) (r : outcome (list string)) : outcome (list string) :=
  match r with
  | Ok ts => Ok (t :: ts)
  | Raise e => Raise e
  end.

Fixpoint shlex_tokens (s : string) (st : shlex_state) (token : string)
         (quoted : bool) : outcome (list string) :=
  match s with
  | EmptyString =>
      match st with
      | SBlank => Ok []
      | SWord => if bool_decide (token = "") && negb quoted then Ok [] else Ok [token]
      | SQuote _ => Raise (ValueError "No closing quotation")
      | SEscape _ => Raise (ValueError "No escaped character")
      end
  | String c s' =>
      match st with
      | SBlank =>
          if shlex_whitespace c then shlex_tokens s' SBlank "" false
          else if shlex_escape c then shlex_tokens s' (SEscape None) "" false
          else if shlex_quotes c then shlex_tokens s' (SQuote c) "" false
          else shlex_tokens s' SWord (String c "") false
      | SWord =>
          if shlex_whitespace c then
            if bool_decide (token = "") && negb quoted
            then shlex_tokens s' SBlank "" false
            else emit token (shlex_tokens s' SBlank "" false)
          else if shlex_quotes c then shlex_tokens s' (SQuote c) token quoted
          else if shlex_escape c then shlex_tokens s' (SEscape None) token quoted
          else shlex_tokens s' SWord (token +:+ String c "") quoted
      | SQuote q =>
          if decide (c = q) then shlex_tokens s' SWord token true
          else if shlex_escape c && shlex_escapedquotes q
               then shlex_tokens s' (SEscape (Some q)) token true
               else shlex_tokens s' (SQuote q) (token +:+ String c "") true
      | SEscape back =>
          match back with
          | Some q =>
              let token :=
                if negb (shlex_escape c) && negb (bool_decide (c = q))
                then token +:+ "\" else token in
              shlex_tokens s' (SQuote q) (token +:+ String c "") quoted
          | None => shlex_tokens s' SWord (token +:+ String c "") quoted
          end
      end
  end.

Definition split (s : string) : outcome (list string) := shlex_tokens s SBlank "" false.

(** ** [repr] of a [str] and of a list of them, for text formatting *)

Definition hex_digit (n : N) : ascii :=
  ascii_of_N (if (n <? 10)%N then 48 + n else 87 + n).

Definition printable (c : ascii) : bool :=
  let n := N_of_ascii c in
  ((32 <=? n) && (n <? 127) || (161 <=? n) && negb (n =? 173))%N.

Definition repr_char (quote c : ascii) : string :=
  if decide (c = quote) then String "\" (String c "")
  else if decide (c = "\"%char) then "\\"
  else if decide (c = "009"%char) then "\t"
  else if decide (c = "010"%char) then "\n"
  else if decide (c = "013"%char) then "\r"
  else if printable c then String c ""
  else let n := N_of_ascii c in
       String "\" (String "x" (String (hex_digit (n / 16)) (String (hex_digit (n mod 16)) ""))).

Fixpoint repr_body (quote : ascii) (s : string) : string :=
  match s with
  | EmptyString => EmptyString
  | String c s' => repr_char quote c +:+ repr_body quote s'
  end.

Definition repr (s : string) : string :=
  let quote :=
    if str_in "'" s && negb (str_in (String "034" "") s) then "034"%char else "'"%char in
  String quote (repr_body quote s +:+ String quote "").

Fixpoint join_with (sep : string) (l : list string) : string :=
  match l with
  | [] => ""
  | [x] => x
  | x :: l' => x +:+ sep +:+ join_with sep l'
  end.

Definition repr_list (l : list string) : string :=
  "[" +:+ join_with ", " (repr <$> l) +:+ "]".

(** ** class [Event]

    A handler is anything Python can compare with [==] (here: a type with
    decidable equality); what calling it does is given by [invoke], which
    acts on the world [W] and on the argument object [A] (the same object is
    handed to every handler of one call, so its changes are threaded).  The
    event itself is a value apart from [W]: a handler that would subscribe
    or unsubscribe on the event being called is outside this model, and no
    handler of the bot does ([run_handler_keeps_events]). *)
Section Event.
Context {H : Type} `{EqDecision H}.

Record Event := mkEvent { handlers : list H }.

(** [Event.__init__] *)
Definition Event_init : Event := mkEvent [].

(** [list.remove(x)]: drops the first [x], [ValueError] when there is none. *)
Fixpoint list_remove (x : H) (l : list H) : outcome (list H) :=
  match l with
  | [] => Raise (ValueError "list.remove(x): x not in list")
  | y :: l' =>
      if decide (y = x) then Ok l'
      else match list_remove x l' with
           | Ok r => Ok (y :: r)
           | Raise e => Raise e
           end
  end.

(** [Event.__iadd__] *)
Definition iadd (self : Event) (handler : H) : Event :=
  if decide (handler ∈ handlers self) then self
  else mkEvent (handlers self ++ [handler]).

(** [Event.__isub__] *)
Definition isub (self : Event) (handler : H) : outcome Event :=
  if decide (handler ∈ handlers self) then
    match list_remove handler (handlers self) with
    | Ok l => Ok (mkEvent l)
    | Raise e => Raise e
    end
  else Ok self.

Context {A W : Type}.
Variable invoke : H → A → W → W * A * outcome unit.

(** What one call of an event leaves behind: the handlers it invoked, in
    order, the world, the argument object, and what it returned. *)
Record run (R : Type) := mkRun {
  invoked : list H;
  world : W;
  arg : A;
  result : outcome R
}.
Arguments mkRun {R} _ _ _ _.
Arguments invoked {R} _.
Arguments world {R} _.
Arguments arg {R} _.
Arguments result {R} _.

(** [for handler in self.__handlers: handler( *args)] *)
Fixpoint for_handlers (hs : list H) (a : A) (w : W) : run unit :=
  match hs with
  | [] => mkRun [] w a (Ok tt)
  | h :: hs' =>
      match invoke h a w with
      | (w', a', Ok _) =>
          let r := for_handlers hs' a' w' in
          mkRun (h :: invoked r) (world r) (arg r) (result r)
      | (w', a', Raise e) => mkRun [h] w' a' (Raise e)
      end
  end.

(** [Event.__call__]: runs the loop and returns [self]. *)
Definition Event_call (self : Event) (a : A) (w : W) : run Event :=
  let r := for_handlers (handlers self) a w in
  mkRun (invoked r) (world r) (arg r)
        (match result r with
         | Ok _ => Ok self
         | Raise e => Raise e
         end).
End Event.

Arguments Event H : clear implicits.
Arguments run H A W R : clear implicits.
Arguments mkRun {H A W R} _ _ _ _.
Arguments invoked {H A W R} _.
Arguments world {H A W R} _.
Arguments arg {H A W R} _.
Arguments result {H A W R} _.

(** The events an [Event] can be after any sequence of [+=] and [-=]. *)
Inductive reachable {H : Type} `{EqDecision H} : Event H → Prop :=
  | reach_init : reachable Event_init
  | reach_iadd e h : reachable e → reachable (iadd e h)
  | reach_isub e h e' : reachable e → isub e h = Ok e' → reachable e'.

(** ** class [Server] *)
Record Server := mkServer { ip : option string; port : Z }.

(** [Server.__init__] with the default port *)
Definition Server_init (ip : option string) : Server := mkServer ip 6667.

Definition as_tuple (self : Server) : option string * Z := (ip self, port self).

(** ** class [Config]

    The six slots, each holding [None] or a [str]; [cfg_nick] and
    [cfg_server] are the slots [__nick] and [__server] (the bot has slots of
    the same names). *)
Record Config := mkConfig {
  command_char : option string;
  channel : option string;
  file : option string;
  cfg_nick : option string;
  password : option string;
  cfg_server : option string
}.

(** What a name resolves to on a [Config]: one of the slots, whose names are
    mangled by the class body ([__nick] is stored as [_Config__nick]), or the
    private method [__get_config].  No other attribute of the object has a
    name starting with [_Config__]. *)
Inductive Config_attr :=
  | CSlot (v : option string)
  | CMethod.

Definition Config_getattr (self : Config) (name : string) : option Config_attr :=
  if decide (name = "_Config__command_char") then Some (CSlot (command_char self))
  else if decide (name = "_Config__channel") then Some (CSlot (channel self))
  else if decide (name = "_Config__file") then Some (CSlot (file self))
  else if decide (name = "_Config__nick") then Some (CSlot (cfg_nick self))
  else if decide (name = "_Config__password") then Some (CSlot (password self))
  else if decide (name = "_Config__server") then Some (CSlot (cfg_server self))
  else if decide (name = "_Config__get_config") then Some CMethod
  else None.

Definition Config_setattr (self : Config) (name : string) (v : option string)
  : outcome Config :=
  if decide (name = "_Config__command_char") then
    Ok (mkConfig v (channel self) (file self) (cfg_nick self) (password self) (cfg_server self))
  else if decide (name = "_Config__channel") then
    Ok (mkConfig (command_char self) v (file self) (cfg_nick self) (password self) (cfg_server self))
  else if decide (name = "_Config__file") then
    Ok (mkConfig (command_char self) (channel self) v (cfg_nick self) (password self) (cfg_server self))
  else if decide (name = "_Config__nick") then
    Ok (mkConfig (command_char self) (channel self) (file self) v (password self) (cfg_server self))
  else if decide (name = "_Config__password") then
    Ok (mkConfig (command_char self) (channel self) (file self) (cfg_nick self) v (cfg_server self))
  else if decide (name = "_Config__server") then
    Ok (mkConfig (command_char self) (channel self) (file self) (cfg_nick self) (password self) v)
  else Raise AttributeError.

(** The body of the loop of [Config.__get_config] for one line of the file. *)
Definition get_config_line (self : Config) (setting : string) : outcome Config :=
  let setting := (λ item, rstrip (lstrip item)) <$> str_split_on ":" setting in
  let attribute := "_Config__" +:+ default "" (head setting) in
  match Config_getattr self attribute with
  | Some _ =>
      match setting !! 1 with
      | Some v => Config_setattr self attribute (Some v)
      | None => Raise IndexError
      end
  | None => Ok self
  end.

Fixpoint get_config_lines (self : Config) (content : list string) : outcome Config :=
  match content with
  | [] => Ok self
  | setting :: rest =>
      match get_config_line self setting with
      | Ok self' => get_config_lines self' rest
      | Raise e => Raise e
      end
  end.

(** [Config.__init__] followed by [__get_config], given the lines read from
    the file. *)
Definition Config_init (filename : string) (lines : list string) : outcome Config :=
  get_config_lines (mkConfig None None (Some filename) None None None)
                   (rstrip <$> lines).

(** [Config.get]: the value of the attribute when there is one, [None]
    when the function falls off its end.  (For the one name [get_config]
    Python would hand back the bound method; the bot never asks for it and
    this model answers [None] there.) *)
Definition get (self : Config) (setting : string) : option string :=
  let setting := "_Config__" +:+ setting in
  match Config_getattr self setting with
  | Some (CSlot v) => v
  | Some CMethod => None
  | None => None
  end.

(** ** The socket

    What the bot can observe of its TCP socket: whether it was closed, the
    calls made on it ([sock_log]), and the operating system's answers to
    come ([sock_faults]: the next call fails with the given error text when
    the head is [Some], succeeds when it is [None] or the list is empty). *)
Inductive sock_event :=
  | Connected (addr : option string * Z)
  | Sent (payload : string)
  | Failed (payload : string) (err : string)
  | Closed.

Record socket := mkSocket {
  sock_closed : bool;
  sock_faults : list (option string);
  sock_log : list sock_event
}.

Definition socket_init (faults : list (option string)) : socket :=
  mkSocket false faults [].

(** The answer the next call will get: [None] when it goes through,
    otherwise the text of the [OSError] it raises. *)
Definition next_fault (s : socket) : option string :=
  if sock_closed s then Some "[Errno 9] Bad file descriptor"
  else default None (head (sock_faults s)).

Definition answered (s : socket) : list (option string) :=
  if sock_closed s then sock_faults s else tail (sock_faults s).

(** [socket.send(payload)]: the socket afterwards, and the error if any. *)
Definition soc_send (payload : string) (s : socket) : socket * option string :=
  match next_fault s with
  | Some err =>
      (mkSocket (sock_closed s) (answered s) (sock_log s ++ [Failed payload err]),
       Some err)
  | None =>
      (mkSocket (sock_closed s) (answered s) (sock_log s ++ [Sent payload]), None)
  end.

(** [socket.connect(addr)] *)
Definition soc_connect (addr : option string * Z) (s : socket) : socket * option string :=
  match next_fault s with
  | Some err => (mkSocket (sock_closed s) (answered s) (sock_log s), Some err)
  | None =>
      (mkSocket (sock_closed s) (answered s) (sock_log s ++ [Connected addr]), None)
  end.

(** [socket.close()] *)
Definition soc_close (s : socket) : socket :=
  mkSocket true (sock_faults s) (sock_log s ++ [Closed]).

(** What one call [recv(1024).decode('utf-8')] meets on an open socket:
    bytes that decode to [data], bytes that are no UTF-8 (a character cut
    by the end of the buffer, for one), or an [OSError] of the socket. *)
Inductive incoming :=
  | Recv_text (data : string)
  | Recv_garbled
  | Recv_error (err : string).

(** [socket.recv(1024).decode('utf-8')] *)
Definition soc_recv (r : incoming) (s : socket) : outcome string :=
  if sock_closed s then Raise (OSError "[Errno 9] Bad file descriptor")
  else match r with
       | Recv_text data => Ok data
       | Recv_garbled => Raise UnicodeDecodeError
       | Recv_error err => Raise (OSError err)
       end.

(** [socket.connect(addr)] reads the address before it turns to the
    network: a host that is no [str] is a [TypeError], whatever the state of
    the socket. *)
Definition addr_readable (addr : option string * Z) : bool :=
  match addr.1 with
  | Some _ => true
  | None => false
  end.

(** ** class [Bot] *)

(** The bound methods that [init_events] subscribes. *)
Inductive handler := OnCommand | OnPrivmsg | OnKick | OnMode.

Global Instance handler_eq_dec : EqDecision handler.
Proof. solve_decision. Defined.

(** A value of the message dict: a [str], or the list of [str] that
    [on_privmsg] stores under ['message']. *)
Inductive dval :=
  | DStr (s : string)
  | DList (l : list string).

Global Instance dval_eq_dec : EqDecision dval.
Proof. solve_decision. Defined.

(** ['{0}'.format(v)] *)
Definition dval_str (v : dval) : string :=
  match v with
  | DStr s => s
  | DList l => repr_list l
  end.

(** [v == s] for a [str] [s] *)
Definition dval_is (v : dval) (s : string) : bool := bool_decide (v = DStr s).

(** The slots of a [Bot] ([__pat] is the constant [pat]), then the two
    observers of the model: [stdout], the texts handed to the console by
    [debug_out] (without the time stamp and colour codes that decorate
    them), and [calls], the handlers invoked so far, in order. *)
Record Bot := mkBot {
  config : Config;
  connected : bool;
  debug : bool;
  nick : option string;
  owners : list string;
  plugins : list string;
  server : Server;
  soc : socket;
  irc_COMMAND : Event handler;
  irc_JOIN : Event handler;
  irc_KICK : Event handler;
  irc_MODE : Event handler;
  irc_NOTICE : Event handler;
  irc_PRIVMSG : Event handler;
  stdout : list string;
  calls : list handler
}.

Definition set_connected (v : bool) (b : Bot) : Bot :=
  mkBot (config b) v (debug b) (nick b) (owners b) (plugins b) (server b) (soc b)
        (irc_COMMAND b) (irc_JOIN b) (irc_KICK b) (irc_MODE b) (irc_NOTICE b)
        (irc_PRIVMSG b) (stdout b) (calls b).

Definition set_soc (v : socket) (b : Bot) : Bot :=
  mkBot (config b) (connected b) (debug b) (nick b) (owners b) (plugins b) (server b) v
        (irc_COMMAND b) (irc_JOIN b) (irc_KICK b) (irc_MODE b) (irc_NOTICE b)
        (irc_PRIVMSG b) (stdout b) (calls b).

Definition set_irc_COMMAND (v : Event handler) (b : Bot) : Bot :=
  mkBot (config b) (connected b) (debug b) (nick b) (owners b) (plugins b) (server b) (soc b)
        v (irc_JOIN b) (irc_KICK b) (irc_MODE b) (irc_NOTICE b)
        (irc_PRIVMSG b) (stdout b) (calls b).

Definition set_irc_KICK (v : Event handler) (b : Bot) : Bot :=
  mkBot (config b) (connected b) (debug b) (nick b) (owners b) (plugins b) (server b) (soc b)
        (irc_COMMAND b) (irc_JOIN b) v (irc_MODE b) (irc_NOTICE b)
        (irc_PRIVMSG b) (stdout b) (calls b).

Definition set_irc_MODE (v : Event handler) (b : Bot) : Bot :=
  mkBot (config b) (connected b) (debug b) (nick b) (owners b) (plugins b) (server b) (soc b)
        (irc_COMMAND b) (irc_JOIN b) (irc_KICK b) v (irc_NOTICE b)
        (irc_PRIVMSG b) (stdout b) (calls b).

Definition set_stdout (v : list string) (b : Bot) : Bot :=
  mkBot (config b) (connected b) (debug b) (nick b) (owners b) (plugins b) (server b) (soc b)
        (irc_COMMAND b) (irc_JOIN b) (irc_KICK b) (irc_MODE b) (irc_NOTICE b)
        (irc_PRIVMSG b) v (calls b).

Definition set_calls (v : list handler) (b : Bot) : Bot :=
  mkBot (config b) (connected b) (debug b) (nick b) (owners b) (plugins b) (server b) (soc b)
        (irc_COMMAND b) (irc_JOIN b) (irc_KICK b) (irc_MODE b) (irc_NOTICE b)
        (irc_PRIVMSG b) (stdout b) v.

(** [Bot.__init__], given the loaded configuration and the socket. *)
Definition Bot_init (cfg : Config) (dbg : bool) (s : socket) : Bot :=
  mkBot cfg false dbg (get cfg "nick") ["JaINTP"] [] (Server_init (get cfg "server")) s
        Event_init Event_init Event_init Event_init Event_init Event_init [] [].

(** What a name resolves to on a [Bot]: one of the six events, or
    something else (a data slot, a method).  Calling something else with the
    message dict is modelled no further than a [TypeError]: no name that
    [handle_msg] builds resolves to anything ([getattr_irc]). *)
Inductive attr :=
  | AEvent (ev : Event handler)
  | AOther.

(** The attributes of a [Bot] by the name [getattr] finds them under: the
    slots, mangled by the class body ([__irc_JOIN] is [_Bot__irc_JOIN]),
    then the methods.  (The attributes every object has all start with two
    underscores.) *)
Definition Bot_attrs (self : Bot) : list (string * attr) :=
  [ ("_Bot__config", AOther); ("_Bot__connected", AOther); ("_Bot__debug", AOther);
    ("_Bot__nick", AOther); ("_Bot__owners", AOther); ("_Bot__pat", AOther);
    ("_Bot__plugins", AOther); ("_Bot__server", AOther); ("_Bot__soc", AOther);
    ("_Bot__irc_COMMAND", AEvent (irc_COMMAND self));
    ("_Bot__irc_JOIN", AEvent (irc_JOIN self));
    ("_Bot__irc_KICK", AEvent (irc_KICK self));
    ("_Bot__irc_MODE", AEvent (irc_MODE self));
    ("_Bot__irc_NOTICE", AEvent (irc_NOTICE self));
    ("_Bot__irc_PRIVMSG", AEvent (irc_PRIVMSG self));
    ("init_events", AOther); ("connect", AOther); ("mainloop", AOther);
    ("handle_msg", AOther); ("send", AOther); ("send_action", AOther);
    ("join", AOther); ("quit", AOther); ("send_msg", AOther);
    ("debug_out", AOther); ("on_command", AOther); ("on_privmsg", AOther);
    ("on_kick", AOther); ("on_mode", AOther) ].

Fixpoint assoc {V : Type} (name : string) (l : list (string * V)) : option V :=
  match l with
  | [] => None
  | (k, v) :: l' => if decide (k = name) then Some v else assoc name l'
  end.

(** [getattr(self, name)]: [None] stands for [AttributeError]. *)
Definition getattr (self : Bot) (name : string) : option attr :=
  assoc name (Bot_attrs self).

(** *** Methods: state passing with exceptions

    A method of the bot is a [St Bot]; a handler, which also holds the
    message dict it was given, is a [St (Bot * dict)]. *)
Definition St (S A : Type) : Type := S → S * outcome A.

Global Instance St_ret {S} : MRet (St S) := λ A a s, (s, Ok a).
Global Instance St_bind {S} : MBind (St S) := λ A B f m s,
  match m s with
  | (s', Ok a) => f a s'
  | (s', Raise e) => (s', Raise e)
  end.

Definition raise {S A : Type} (e : exn) : St S A := λ s, (s, Raise e).
Definition gets {S A : Type} (f : S → A) : St S A := λ s, (s, Ok (f s)).
Definition modify {S : Type} (f : S → S) : St S unit := λ s, (f s, Ok tt).

(** [try: m except AttributeError: pass] *)
Definition except_AttributeError {S : Type} (m : St S unit) : St S unit := λ s,
  match m s with
  | (s', Raise AttributeError) => (s', Ok tt)
  | r => r
  end.

Abbreviation M := (St Bot).
Abbreviation dict := (gmap string dval).
Abbreviation HM := (St (Bot * dict)).

(** A method of the bot called from a handler. *)
Definition on_bot {A : Type} (m : M A) : HM A := λ '(self, data),
  match m self with
  | (self', r) => ((self', data), r)
  end.

Definition LF : string := String "010" "".
Definition CRLF : string := String "013" (String "010" "").

(** The items [debug_out] prints for a text: its lines, the empty ones
    left out. *)
Definition console_lines (text : string) : list string :=
  let output := if str_in LF text then str_split_on "010" text else [text] in
  filter (λ item, item ≠ "") output.

(** [Bot.debug_out] *)
Definition debug_out (string : string) : M unit :=
  modify (λ self,
    if debug self then set_stdout (stdout self ++ console_lines string) self
    else self).

(** [Bot.send]: [except Exception as e] meets the socket's [OSError]. *)
Definition send (string : string) : M unit := λ self,
  match soc_send (string +:+ CRLF) (soc self) with
  | (s, None) => (set_soc s self, Ok tt)
  | (s, Some e) => debug_out e (set_soc s self)
  end.

(** [Bot.send_action]; the argument is [None] when the caller passes a
    setting that is missing. *)
Definition send_action (action : string) (argument_string : option string) : M unit :=
  send (action +:+ " " +:+ py_str argument_string).

(** [Bot.join] *)
Definition join (chan : option string) : M unit := send_action "JOIN" chan.

(** [Bot.quit] *)
Definition quit : M unit :=
  send "QUIT" ;;
  modify (λ self, set_soc (soc_close (soc self)) self) ;;
  raise (SystemExit 0).

(** [Bot.send_msg] *)
Definition send_msg (recip message : string) : M unit :=
  send_action "PRIVMSG" (Some (recip +:+ " :" +:+ message)).

(** [data[key]] *)
Definition getitem {S : Type} (data : dict) (key : string) : St S dval :=
  match data !! key with
  | Some v => mret v
  | None => raise (KeyError key)
  end.

(** [v[0]] on a [str] or a list *)
Definition index0 {S : Type} (v : dval) : St S string :=
  match v with
  | DStr (String c _) => mret (String c "")
  | DList (x :: _) => mret x
  | _ => raise IndexError
  end.

(** [v[1:]] *)
Definition slice1 (v : dval) : dval :=
  match v with
  | DStr (String _ s) => DStr s
  | DStr EmptyString => DStr ""
  | DList l => DList (tail l)
  end.

(** [split(v)]: [shlex] reads a [str]; handed a list it fails on the first
    read, the list having no [read] attribute. *)
Definition split_dval {S : Type} (v : dval) : St S (list string) :=
  match v with
  | DStr s => match split s with
              | Ok l => mret l
              | Raise e => raise e
              end
  | DList _ => raise AttributeError
  end.

(** [Bot.on_command] *)
Definition on_command : HM unit :=
  data ← gets snd;
  m0 ← (getitem data "message" ≫= index0);
  on_bot (debug_out ("%oHandling command%g: %o" +:+ m0)) ;;
  sender ← getitem data "nick";
  self ← gets fst;
  if existsb (dval_is sender) (owners self) then
    m0 ← (getitem data "message" ≫= index0);
    if bool_decide (m0 = "die") then
      on_bot (debug_out "%oQuitting%g...") ;;
      on_bot quit
    else mret tt
  else mret tt.

(** [Bot.on_privmsg]; [publish] is the call [self.__irc_COMMAND(data)]. *)
Definition on_privmsg (publish : HM unit) : HM unit :=
  data ← gets snd;
  m0 ← (getitem data "message" ≫= index0);
  self ← gets fst;
  if bool_decide (Some m0 = get (config self) "cchar") then
    message ← getitem data "message";
    tokens ← split_dval (slice1 message);
    modify (λ '(self, data), (self, <["message" := DList tokens]> data)) ;;
    data ← gets snd;
    m0 ← (getitem data "message" ≫= index0);
    sender ← getitem data "nick";
    on_bot (debug_out ("%oReceived command%g, %o" +:+ m0 +:+ "%g, %ofrom " +:+ dval_str sender)) ;;
    publish
  else mret tt.

(** [Bot.on_kick] *)
Definition on_kick : HM unit :=
  data ← gets snd;
  orig ← getitem data "orig";
  tmp ← match orig with
        | DStr s => mret (str_split s)
        | DList _ => raise AttributeError
        end;
  self ← gets fst;
  match tmp !! 3 with
  | None => raise IndexError
  | Some victim =>
      if bool_decide (Some victim = nick self) then
        match tmp !! 2 with
        | None => raise IndexError
        | Some chan => on_bot (join (Some chan))
        end
      else mret tt
  end.

(** [Bot.on_mode] *)
Definition on_mode : HM unit := mret tt.

(** Calling a bound method with the message dict.  [fuel] bounds the depth
    of nested handler calls, as the interpreter's recursion limit does; every
    call that starts is recorded in [calls]. *)
Fixpoint run_handler (fuel : nat) (h : handler) (data : dict) (self : Bot)
  : Bot * dict * outcome unit :=
  match fuel with
  | 0 => (self, data, Raise RecursionError)
  | S fuel' =>
      let self := set_calls (calls self ++ [h]) self in
      match h with
      | OnCommand => on_command (self, data)
      | OnPrivmsg =>
          on_privmsg
            (λ '(self, data),
               let r := Event_call (run_handler fuel') (irc_COMMAND self) data self in
               ((world r, arg r),
                match result r with
                | Ok _ => Ok tt
                | Raise e => Raise e
                end))
            (self, data)
      | OnKick => on_kick (self, data)
      | OnMode => on_mode (self, data)
      end
  end.

(** Publishing [com] on an event of the bot. *)
Definition publish (fuel : nat) (ev : Event handler) (com : dict) : M unit := λ self,
  let r := Event_call (run_handler fuel) ev com self in
  (world r, match result r with
            | Ok _ => Ok tt
            | Raise e => Raise e
            end).

(** [Bot.init_events] *)
Definition init_events : M unit :=
  modify (λ self, set_irc_COMMAND (iadd (irc_COMMAND self) OnCommand) self) ;;
  modify (λ self, set_irc_KICK (iadd (irc_KICK self) OnKick) self) ;;
  modify (λ self, set_irc_MODE (iadd (irc_MODE self) OnMode) self) ;;
  modify (λ self, set_irc_COMMAND (iadd (irc_COMMAND self) OnPrivmsg) self).

(** [Bot.connect]; [sleep(5)] changes nothing the model records. *)
Definition connect : M unit :=
  (λ self, match soc_connect (as_tuple (server self)) (soc self) with
           | (s, None) => (set_soc s self, Ok tt)
           | (s, Some e) => (set_soc s self, Raise (OSError e))
           end) ;;
  n ← gets nick;
  send_action "NICK" n ;;
  send_action "USER" (Some (py_str n +:+ " PyBot PyBot :JaINTP's Python IRC bot.")) ;;
  debug_out "%oIdentifying%g..." ;;
  pw ← gets (λ self, get (config self) "password");
  send_msg "Nickserv" ("identify " +:+ py_str pw) ;;
  modify (set_connected true).

(** The dict [handle_msg] builds from the groups of a match. *)
Definition make_com (g : groups) (data : string) : dict :=
  <["orig" := DStr data]>
    (list_to_map (zip ["nick"; "user"; "action"; "recipient"; "message"]
                      ((λ item, DStr (rstrip item)) <$> omap id g))).

(** The parser: the first lines of [handle_msg], from the match to the
    finished dict; [None] when the line does not match. *)
Definition parse (data : string) : option dict :=
  (λ g, make_com g data) <$> pat_match data.

(** [Bot.handle_msg] *)
Definition handle_msg (fuel : nat) (data : string) : M unit :=
  match parse data with
  | None => mret tt
  | Some com =>
      except_AttributeError (
        action ← getitem com "action";
        debug_out ("%oCalling event handler for " +:+ dval_str action) ;;
        self ← gets id;
        match getattr self ("irc_" +:+ dval_str action) with
        | None => raise AttributeError
        | Some (AEvent ev) => publish fuel ev com
        | Some AOther => raise TypeError
        end)
  end.

(** One turn of the [while] loop of [Bot.mainloop], [data] being what
    [recv] returned, decoded. *)
Definition mainloop_body (fuel : nat) (data : string) : M unit :=
  (if startswith data "PING" then
     match last (str_split data) with
     | Some token =>
         send_action "PONG" (Some token) ;;
         debug_out ("%oPONG%g: %o" +:+ token)
     | None => raise IndexError
     end
   else
     handle_msg fuel data ;;
     debug_out ("%o" +:+ data)) ;;
  if str_in "End of /MOTD" data then
    debug_out "%oMOTD done%g!" ;;
    chan ← gets (λ self, get (config self) "channel");
    join chan
  else mret tt.

(** The [while] loop of [Bot.mainloop], as far as [received] tells what the
    calls of [recv] meet.  [Some r] is the way the loop ends, [None] that it
    has not ended: it is in the next [recv], of which [received] says
    nothing.  The test of [__connected] comes first in every turn; an
    exception of [recv], of [decode] or of the body leaves the loop. *)
Fixpoint mainloop_loop (fuel : nat) (received : list incoming) (self : Bot)
  : Bot * option (outcome unit) :=
  if connected self then
    match received with
    | [] =>
        (self, if sock_closed (soc self)
               then Some (Raise (OSError "[Errno 9] Bad file descriptor"))
               else None)
    | r :: rest =>
        match soc_recv r (soc self) with
        | Raise e => (self, Some (Raise e))
        | Ok data =>
            match mainloop_body fuel data self with
            | (self', Ok _) => mainloop_loop fuel rest self'
            | (self', Raise e) => (self', Some (Raise e))
            end
        end
    end
  else (self, Some (Ok tt)).

(** [Bot.mainloop].  [connect] above is the method on an address the socket
    can read; on a server without a host the socket raises [TypeError] at
    the call, before anything reaches the network. *)
Definition mainloop (fuel : nat) (received : list incoming) (self : Bot)
  : Bot * option (outcome unit) :=
  match init_events self with
  | (self, Raise e) => (self, Some (Raise e))
  | (self, Ok _) =>
      match (if addr_readable (as_tuple (server self)) then connect self
             else (self, Raise TypeError)) with
      | (self, Raise e) => (self, Some (Raise e))
      | (self, Ok _) => mainloop_loop fuel received self
      end
  end.


(** ** Vocabulary of the statements *)

(** How often [h] occurs in a list of handlers, e.g. in the handlers one
    call invoked. *)
Definition times {H : Type} `{EqDecision H} (h : H) (l : list H) : nat :=
  length (filter (λ x, x = h) l).

(** Stand-alone handlers over a console: one raises, the others print
    their tag and the argument. *)
Inductive plain := Failing | Printing (tag : string).

Global Instance plain_eq_dec : EqDecision plain.
Proof. solve_decision. Defined.

Definition plain_invoke (h : plain) (a : string) (w : list string)
  : list string * string * outcome unit :=
  match h with
  | Failing => (w, a, Raise (ValueError "boom"))
  | Printing tag => (w ++ [tag +:+ a], a, Ok tt)
  end.

(** Isolation of failures, as a property of one call: a handler that is in
    the list is invoked by the call. *)
Definition invokes_all {H : Type} `{EqDecision H} {A W : Type}
    (invoke : H → A → W → W * A * outcome unit) (e : Event H) (a : A) (w : W) : Prop :=
  ∀ h, h ∈ handlers e → h ∈ invoked (Event_call invoke e a w).

(** Every character of [s] is in the class [p]. *)
Fixpoint str_all (p : ascii → bool) (s : string) : bool :=
  match s with
  | EmptyString => true
  | String c s' => p c && str_all p s'
  end.

(** [s] does not start with a character of the class [p]. *)
Definition stops (p : ascii → bool) (s : string) : Prop :=
  match s with
  | EmptyString => True
  | String c _ => p c = false
  end.

(** A parameter of a protocol line: not empty and free of blanks. *)
Definition word (s : string) : Prop := s ≠ "" ∧ str_all non_space s = true.

(** The parse of [data] gives the five fields the given values. *)
Definition parses_as (data nick user command target trailing : string) : Prop :=
  ∃ com, parse data = Some com ∧
         com !! "nick" = Some (DStr nick) ∧
         com !! "user" = Some (DStr user) ∧
         com !! "action" = Some (DStr command) ∧
         com !! "recipient" = Some (DStr target) ∧
         com !! "message" = Some (DStr trailing).

(** The six events of a bot. *)
Definition events (b : Bot) : list (Event handler) :=
  [irc_COMMAND b; irc_JOIN b; irc_KICK b; irc_MODE b; irc_NOTICE b; irc_PRIVMSG b].

(** The record a [send] of [payload] leaves in the log of the socket [s]. *)
Definition attempt (s : socket) (payload : string) : sock_event :=
  match next_fault s with
  | None => Sent payload
  | Some err => Failed payload err
  end.

(** What [quit] does to a session that was in state [before]: the QUIT line
    is handed to the socket, the socket is closed, the process exits. *)
Definition session_terminated (before after : Bot) (r : outcome unit) : Prop :=
  r = Raise (SystemExit 0) ∧
  sock_closed (soc after) = true ∧
  sock_log (soc after) =
    sock_log (soc before) ++ [attempt (soc before) ("QUIT" +:+ CRLF); Closed].

(** The parse of [data] gives the command [command]. *)
Definition parses_command (data command : string) : Prop :=
  ∃ com, parse data = Some com ∧ com !! "action" = Some (DStr command).

(** A configuration file in the format of [write_basic_config], one setting
    per line, with the command prefix under both names, and what loading it
    gives. *)
Definition example_lines : list string :=
  ["nick: jaintp_bot"; "server: irc.freenode.net"; "password: secret";
   "channel: #jaintp"; "command_char: !"; "cchar: !"].

Definition example_config : Config :=
  mkConfig (Some "!") (Some "#jaintp") (Some "irc.cfg") (Some "jaintp_bot")
           (Some "secret") (Some "irc.freenode.net").

(** The bot of that configuration once [init_events] and [connect] have
    run on a socket that works. *)
Definition ready_bot : Bot :=
  ((init_events ;; connect) (Bot_init example_config true (socket_init []))).1.

(** A bot without debug output whose next write will fail. *)
Definition deaf_bot : Bot :=
  Bot_init example_config false (socket_init [Some "[Errno 32] Broken pipe"]).

(** A failed write reaches the caller of [send] as an exception. *)
Definition reports_failure (string : string) (self : Bot) : Prop :=
  next_fault (soc self) ≠ None → ∃ e, (send string self).2 = Raise e.

(** [keeps ev m]: running [m] leaves [ev] of the state as it was, whether
    [m] returns or raises. *)
Definition keeps {S X A : Type} (ev : S → X) (m : St S A) : Prop :=
  ∀ s, ev (m s).1 = ev s.

(** ** The remaining code: the colourer and the configuration file *)

(** [s.replace(old, new)]: the occurrences of [old] from left to right,
    none overlapping another; [skip] counts the characters of an occurrence
    still to pass over.  An empty [old] puts [new] around every character. *)
Fixpoint replace_from (old new s : string) (skip : nat) : string :=
  match s with
  | EmptyString => EmptyString
  | String c s' =>
      match skip with
      | S n => replace_from old new s' n
      | 0 =>
          if startswith s old
          then new +:+ replace_from old new s' (pred (String.length old))
          else String c (replace_from old new s' 0)
      end
  end.

Fixpoint interleave (new s : string) : string :=
  match s with
  | EmptyString => new
  | String c s' => new +:+ String c (interleave new s')
  end.

Definition str_replace (old new s : string) : string :=
  match old with
  | EmptyString => interleave new s
  | _ => replace_from old new s 0
  end.

(** [_ConsoleColourer.__colours], in the order the dict is written. *)
Definition colours : list (ascii * nat) :=
  [("w", 0); ("r", 31); ("g", 32); ("o", 33); ("b", 34); ("p", 35); ("c", 36);
   ("G", 37)]%char.

Definition ESC : string := String "027" "".

(** ['\033[{0}m'.format(code)] *)
Definition base_format (code : nat) : string := ESC +:+ "[" +:+ pretty code +:+ "m".

(** One turn of the loop of [_ConsoleColourer._format]; [windows] is what
    the test [system() is 'Windows'] gives on the machine. *)
Definition format_step (windows : bool) (text : string) (entry : ascii * nat) : string :=
  if windows then str_replace (String "%" (String entry.1 "")) "" text
  else str_replace (String "%" (String entry.1 "")) (base_format entry.2) text
       +:+ ESC +:+ "[0m".

(** [_ConsoleColourer._format] *)
Definition CC_format (windows : bool) (text : string) : string :=
  foldl (format_step windows) text colours.

(** [f.readlines()] on a file opened for reading as text: line ends are
    brought to a line feed first ([universal]), then the text is cut after
    every line feed. *)
Fixpoint universal (s : string) : string :=
  match s with
  | String "013" (String "010" s' as t) => universal t
  | String "013" s' => String "010" (universal s')
  | String c s' => String c (universal s')
  | EmptyString => EmptyString
  end.

Fixpoint cut_lines (s w : string) : list string :=
  match s with
  | EmptyString => if decide (w = "") then [] else [w]
  | String c s' =>
      if decide (c = "010"%char) then (w +:+ LF) :: cut_lines s' ""
      else cut_lines s' (w +:+ String c "")
  end.

Definition readlines (content : string) : list string := cut_lines (universal content) "".

(** [f.writelines(l)]: the items one after the other, nothing between. *)
Definition writelines (l : list string) : string := foldr String.append "" l.

(** What [Config.write_basic_config] leaves in the file. *)
Definition write_basic_config : string :=
  writelines ["nick: jaintp_bot"; "server: irc.freenode.net";
              "password: lolYouWish!"; "channel: #jaintp"; "command_char: !"].

(** [Config(filename)] on a file of the given content. *)
Definition Config_open (filename content : string) : outcome Config :=
  Config_init filename (readlines content).

(** ** Vocabulary of the further statements *)

(** The names of the settings: the slots of [Config] as a caller of [get]
    writes them. *)
Definition settings : list string :=
  ["command_char"; "channel"; "file"; "nick"; "password"; "server"].

Definition strip (s : string) : string := rstrip (lstrip s).

(** The key and the value of a line of the configuration file: its first
    and second field between colons, stripped. *)
Definition setting_key (line : string) : string :=
  default "" (head (strip <$> str_split_on ":" line)).

Definition setting_value (line : string) : option string :=
  (strip <$> str_split_on ":" line) !! 1.

(** The value of the last of the lines that names [key]. *)
Definition last_setting (key : string) (content : list string) : option string :=
  last (omap (λ line, if decide (setting_key line = key) then setting_value line
                      else None) content).

Definition not_colon (c : ascii) : bool := negb (bool_decide (c = ":"%char)).
Definition not_percent (c : ascii) : bool := negb (bool_decide (c = "%"%char)).

(** The text a record of the socket log carries, if it is a write. *)
Definition payload_of (ev : sock_event) : option string :=
  match ev with
  | Sent p | Failed p _ => Some p
  | Connected _ | Closed => None
  end.

(** What stays of a bot when only its socket and its console move. *)
Definition core (b : Bot) :=
  (config b, connected b, debug b, nick b, owners b, events b, calls b).

(** A record of the socket log that is the write of a PONG or JOIN line. *)
Definition loop_write (ev : sock_event) : Prop :=
  ∃ p, payload_of ev = Some p ∧
       (startswith p "PONG " = true ∨ startswith p "JOIN " = true).

(** The entries the log of the socket gained between two states. *)
Definition written (before after : Bot) : list sock_event :=
  drop (length (sock_log (soc before))) (sock_log (soc after)).

(** The colour codes of a text replaced, entry after entry of the table,
    and the reset sequence [n] times. *)
Definition colourise (text : string) : string :=
  foldl (λ t entry, str_replace (String "%" (String entry.1 "")) (base_format entry.2) t)
        text colours.

Fixpoint resets (n : nat) : string :=
  match n with
  | 0 => ""
  | S n' => resets n' +:+ ESC +:+ "[0m"
  end.

(** ** The session: what the bot hands to the socket *)

(** The lines [connect] writes for a nick and a password as the
    configuration gives them. *)
Definition registration (nk pw : option string) : list string :=
  [("NICK " +:+ py_str nk) +:+ CRLF;
   ("USER " +:+ py_str nk +:+ " PyBot PyBot :JaINTP's Python IRC bot.") +:+ CRLF;
   ("PRIVMSG Nickserv :identify " +:+ py_str pw) +:+ CRLF].

(** The lines one turn of the read loop writes for [data], [chan] being the
    channel of the configuration: the answer to a keep-alive, then the JOIN
    at the end of the MOTD. *)
Definition turn_lines (chan : option string) (data : string) : list string :=
  (if startswith data "PING"
   then from_option (λ token, [("PONG " +:+ token) +:+ CRLF]) [] (last (str_split data))
   else []) ++
  (if str_in "End of /MOTD" data then [("JOIN " +:+ py_str chan) +:+ CRLF] else []).

(** [sends cfg lines m]: on a bot of configuration [cfg], [m] returns
    normally, moves nothing but the socket and the console, and hands
    [lines] to the socket, in this order, each once, whether the socket
    takes them or not. *)
Definition sends (cfg : Config) (lines : list string) (m : M unit) : Prop :=
  ∀ self, config self = cfg →
    (m self).2 = Ok tt ∧
    core (m self).1 = core self ∧
    ∃ evs, sock_log (soc (m self).1) = sock_log (soc self) ++ evs ∧
           payload_of <$> evs = Some <$> lines.

(** The chunks the loop reads before [recv] or [decode] first fails, and
    that failure, if [received] has one. *)
Fixpoint texts_before (received : list incoming) : list string :=
  match received with
  | Recv_text data :: rest => data :: texts_before rest
  | _ => []
  end.

Fixpoint first_failure (received : list incoming) : option exn :=
  match received with
  | [] => None
  | Recv_text _ :: rest => first_failure rest
  | Recv_garbled :: _ => Some UnicodeDecodeError
  | Recv_error err :: _ => Some (OSError err)
  end.


(** A bot fresh from [Bot.__init__], on a socket that works. *)
Definition fresh_bot : Bot := Bot_init example_config false (socket_init []).

(** * The model on concrete inputs *)

Example pat_match_privmsg :
  pat_match ":nick!user@host PRIVMSG #chan :hello world" =
  Some [Some "nick"; Some "user@host"; Some "PRIVMSG"; Some "#chan";
        Some "hello world"; None].
Proof. vm_compute. reflexivity. Qed.

Example pat_match_mode :
  pat_match ":nick!user@host MODE #chan +o bob" =
  Some [Some "nick"; Some "user@host"; Some "MODE"; Some "#chan"; Some "o bob"; None].
Proof. vm_compute. reflexivity. Qed.

Example pat_match_join :
  pat_match ":nick!user@host JOIN :#chan" =
  Some [Some "nick"; Some "user@host"; Some "JOIN"; Some "#chan"; None; None].
Proof. vm_compute. reflexivity. Qed.

Example pat_match_numeric :
  pat_match ":irc.example.net 001 jaintp_bot :Welcome" = None.
Proof. vm_compute. reflexivity. Qed.

Example parse_strips_line_end :
  parse (":nick!user@host PRIVMSG #chan :hello  " +:+ CRLF) ≫= (.!! "message")
  = Some (DStr "hello").
Proof. vm_compute. reflexivity. Qed.

Example split_words : split "greet bob" = Ok ["greet"; "bob"].
Proof. vm_compute. reflexivity. Qed.

Example split_quoted : split "say 'hello world' a\ b" = Ok ["say"; "hello world"; "a b"].
Proof. vm_compute. reflexivity. Qed.

Example split_open_quote : split "say 'hello" = Raise (ValueError "No closing quotation").
Proof. vm_compute. reflexivity. Qed.

Example str_split_ping : str_split ("PING :abc123" +:+ CRLF) = ["PING"; ":abc123"].
Proof. vm_compute. reflexivity. Qed.

Example example_config_loaded :
  Config_init "irc.cfg" example_lines = Ok example_config.
Proof. vm_compute. reflexivity. Qed.

Example ready_bot_events :
  handlers <$> events ready_bot = [[OnCommand; OnPrivmsg]; []; [OnKick]; [OnMode]; []; []].
Proof. vm_compute. reflexivity. Qed.

Example ready_bot_sent :
  sock_log (soc ready_bot) =
  [Connected (Some "irc.freenode.net", 6667%Z);
   Sent ("NICK jaintp_bot" +:+ CRLF);
   Sent ("USER jaintp_bot PyBot PyBot :JaINTP's Python IRC bot." +:+ CRLF);
   Sent ("PRIVMSG Nickserv :identify secret" +:+ CRLF)].
Proof. vm_compute. reflexivity. Qed.

(** [on_kick] itself, handed the dict of a KICK line naming the bot,
    rejoins the channel. *)
Example on_kick_rejoins :
  let data := ":op!user@host KICK #jaintp jaintp_bot :bye" in
  sock_log (soc (run_handler 1 OnKick (default ∅ (parse data)) ready_bot).1.1) =
  sock_log (soc ready_bot) ++ [Sent ("JOIN #jaintp" +:+ CRLF)].
Proof. vm_compute. reflexivity. Qed.

(** * Facts about [Event] *)
Section EventFacts.
Context {H : Type} `{EqDecision H}.
Implicit Types (e : Event H) (h : H) (l : list H).

Lemma list_remove_elem h l :
  h ∈ l → ∃ l', list_remove h l = Ok l'.
Proof.
  induction l as [|y l IH]; intros Hin.
  - by apply elem_of_nil in Hin.
  - simpl. case_decide as Hy; [by eexists|].
    apply elem_of_cons in Hin as [->|Hin]; [done|].
    destruct (IH Hin) as [l' ->]. by eexists.
Qed.

Lemma list_remove_spec h l l' :
  list_remove h l = Ok l' →
  ∃ l1 l2, l = l1 ++ h :: l2 ∧ l' = l1 ++ l2 ∧ h ∉ l1.
Proof.
  revert l'. induction l as [|y l IH]; intros l' Hrm; simpl in Hrm; [done|].
  case_decide as Hy.
  - injection Hrm as <-. subst y. exists [], l. split_and!; [done..|].
    apply not_elem_of_nil.
  - destruct (list_remove h l) as [r|] eqn:Hr; [|done].
    injection Hrm as <-.
    destruct (IH r eq_refl) as (l1 & l2 & -> & -> & Hni).
    exists (y :: l1), l2. split_and!; [done..|].
    intros [?|?]%elem_of_cons; by subst.
Qed.

Lemma iadd_handlers e h :
  handlers (iadd e h) =
  if decide (h ∈ handlers e) then handlers e else handlers e ++ [h].
Proof. unfold iadd. by case_decide. Qed.

Lemma iadd_elem e h : h ∈ handlers (iadd e h).
Proof. rewrite iadd_handlers. case_decide; set_solver. Qed.


Lemma iadd_NoDup e h : NoDup (handlers e) → NoDup (handlers (iadd e h)).
Proof.
  intros Hnd. rewrite iadd_handlers. case_decide as Hin; [done|].
  apply NoDup_app. split_and!; [done| |apply NoDup_singleton].
  intros x Hx ->%list_elem_of_singleton. done.
Qed.

Lemma isub_total e h : ∃ e', isub e h = Ok e'.
Proof.
  unfold isub. case_decide as Hin; [|by eexists].
  destruct (list_remove_elem _ _ Hin) as [l' ->]. by eexists.
Qed.


Lemma isub_NoDup e h e' :
  NoDup (handlers e) → isub e h = Ok e' →
  NoDup (handlers e') ∧ h ∉ handlers e'.
Proof.
  intros Hnd. unfold isub. case_decide as Hin.
  - destruct (list_remove h (handlers e)) as [r|] eqn:Hr; [|done].
    intros [= <-]. simpl.
    destruct (list_remove_spec _ _ _ Hr) as (l1 & l2 & Hl & -> & Hni).
    rewrite Hl in Hnd. apply NoDup_app in Hnd as (Hn1 & Hdis & Hn2).
    apply NoDup_cons in Hn2 as [Hh Hn2]. split.
    + apply NoDup_app. split_and!; [done| |done].
      intros x Hx Hx2. apply (Hdis x Hx). by right.
    + rewrite elem_of_app. intros [?|?]; done.
  - by intros [= <-].
Qed.

Lemma reachable_NoDup e : reachable e → NoDup (handlers e).
Proof.
  induction 1 as [|e h _ IH|e h e' _ IH Hsub].
  - apply NoDup_nil_2.
  - by apply iadd_NoDup.
  - by apply (isub_NoDup e h e').
Qed.

Context {A W : Type}.
Variable invoke : H → A → W → W * A * outcome unit.


Lemma for_handlers_ok l a w :
  result (for_handlers invoke l a w) = Ok tt →
  invoked (for_handlers invoke l a w) = l.
Proof.
  revert a w. induction l as [|h l IH]; intros a w; simpl; [done|].
  destruct (invoke h a w) as [[w' a'] [[]|x]]; simpl; [|done].
  intros Hr. by rewrite IH.
Qed.

Lemma for_handlers_app l1 l2 a w :
  result (for_handlers invoke l1 a w) = Ok tt →
  let r1 := for_handlers invoke l1 a w in
  let r2 := for_handlers invoke l2 (arg r1) (world r1) in
  for_handlers invoke (l1 ++ l2) a w =
  mkRun (l1 ++ invoked r2) (world r2) (arg r2) (result r2).
Proof.
  revert a w. induction l1 as [|h l1 IH]; intros a w; simpl.
  - intros _. by destruct (for_handlers invoke l2 a w).
  - destruct (invoke h a w) as [[w' a'] [[]|x]]; simpl; [|done].
    intros Hr. by rewrite (IH _ _ Hr).
Qed.

Lemma times_absent h l : h ∉ l → times h l = 0.
Proof.
  unfold times. induction l as [|x l IH]; intros Hni; [done|].
  apply not_elem_of_cons in Hni as [Hx Hl].
  rewrite filter_cons, decide_False by done. by apply IH.
Qed.


Lemma for_handlers_app_raise l1 l2 a w x :
  result (for_handlers invoke l1 a w) = Raise x →
  for_handlers invoke (l1 ++ l2) a w = for_handlers invoke l1 a w.
Proof.
  revert a w. induction l1 as [|h l1 IH]; intros a w; simpl; [done|].
  destruct (invoke h a w) as [[w' a'] [[]|y]]; simpl; [|done].
  intros Hr. by rewrite (IH _ _ Hr).
Qed.


Lemma times_NoDup h l : NoDup l → h ∈ l → times h l = 1.
Proof.
  unfold times. induction 1 as [|x l Hx Hnd IH]; intros Hin.
  - by apply elem_of_nil in Hin.
  - rewrite filter_cons. apply elem_of_cons in Hin as [->|Hin].
    + rewrite decide_True by done. simpl. f_equal. by apply times_absent.
    + rewrite decide_False; [by apply IH|]. intros ->. done.
Qed.

End EventFacts.

(** * Facts about strings and the matcher *)

Lemma app_cons c s t : String c s +:+ t = String c (s +:+ t).
Proof. reflexivity. Qed.

Lemma app_empty_r s : s +:+ "" = s.
Proof. induction s as [|c s IH]; [done|]. by rewrite app_cons, IH. Qed.

Lemma length_app_str s t :
  String.length (s +:+ t) = String.length s + String.length t.
Proof. induction s as [|c s IH]; [done|]. rewrite app_cons. simpl. by rewrite IH. Qed.

Lemma take_str_app s t : take_str (String.length s) (s +:+ t) = s.
Proof.
  induction s as [|c s IH]; [by destruct t|].
  rewrite app_cons. simpl. by rewrite IH.
Qed.

Lemma consumed_app s t : consumed (s +:+ t) t = s.
Proof.
  unfold consumed. rewrite length_app_str.
  replace (String.length s + String.length t - String.length t)
    with (String.length s) by lia.
  apply take_str_app.
Qed.

Lemma rstrip_no_space s : str_all non_space s = true → rstrip s = s.
Proof.
  induction s as [|c s IH]; [done|]. simpl.
  intros [Hc Hs]%andb_prop. rewrite (IH Hs).
  unfold non_space in Hc. apply negb_true_iff in Hc. rewrite Hc.
  by destruct s.
Qed.

Lemma word_stops s : word s → stops isspace s.
Proof.
  intros [Hne Hall]. destruct s as [|c s]; [done|]. simpl in *.
  apply andb_prop in Hall as [Hc _]. by apply negb_true_iff in Hc.
Qed.

Section MatcherFacts.
Context {R : Type}.
Implicit Types (k : string → option R).

(** A greedy repetition takes the whole run when the run cannot be extended
    and the rest of the pattern accepts what follows. *)
Lemma rep_run p lo run rest k x :
  str_all p run = true → lo ≤ String.length run → stops p rest →
  k rest = Some x →
  rep p lo (run +:+ rest) k = Some x.
Proof.
  intros Hall Hlo Hstop Hk. revert lo Hlo.
  induction run as [|c run IH]; intros lo Hlo.
  - simpl in Hlo. assert (lo = 0) as -> by lia.
    change ("" +:+ rest) with rest.
    destruct rest as [|c rest]; simpl; [done|].
    simpl in Hstop. by rewrite Hstop.
  - rewrite app_cons. simpl in *.
    apply andb_prop in Hall as [-> Hall].
    rewrite IH; [done..|lia].
Qed.

(** A repetition fails when the rest of the pattern refuses every suffix. *)
Lemma rep_none p lo s k :
  (∀ pre s', s = pre +:+ s' → k s' = None) → rep p lo s k = None.
Proof.
  revert lo. induction s as [|c s IH]; intros lo Hk; simpl.
  - case_decide; [|done]. by apply (Hk "").
  - assert (k (String c s) = None) as Hhere by by apply (Hk "").
    rewrite IH.
    + rewrite Hhere. by repeat case_match.
    + intros pre s' ->. by apply (Hk (String c pre)).
Qed.
End MatcherFacts.

Lemma re_run_chr c s g k : re_run (Chr c) (String c s) g k = k s g.
Proof. simpl. by rewrite decide_True. Qed.

Lemma re_run_rep p lo run rest g k x :
  str_all p run = true → lo ≤ String.length run → stops p rest →
  k rest g = Some x →
  re_run (Rep p lo) (run +:+ rest) g k = Some x.
Proof. intros. simpl. by apply rep_run. Qed.

Lemma re_run_grp p lo i run rest g k x :
  str_all p run = true → lo ≤ String.length run → stops p rest →
  k rest (<[pred i := Some run]> g) = Some x →
  re_run (Grp i (Rep p lo)) (run +:+ rest) g k = Some x.
Proof. intros. simpl. apply rep_run; [done..|]. by rewrite consumed_app. Qed.

Lemma re_run_cat r1 r2 s g k :
  re_run (Cat r1 r2) s g k = re_run r1 s g (λ s' g', re_run r2 s' g' k).
Proof. reflexivity. Qed.

Lemma re_run_opt_take r s g k x :
  re_run r s g k = Some x → re_run (Opt r) s g k = Some x.
Proof. intros Hr. simpl. by rewrite Hr. Qed.

Lemma re_run_opt_skip r s g k :
  re_run r s g k = None → re_run (Opt r) s g k = k s g.
Proof. intros Hr. simpl. by rewrite Hr. Qed.

Lemma re_run_chr_stop c s g k :
  stops (λ c', bool_decide (c' = c)) s → re_run (Chr c) s g k = None.
Proof.
  destruct s as [|c' s]; [done|]. simpl. intros Hne.
  apply bool_decide_eq_false in Hne. rewrite decide_False; [done|congruence].
Qed.

Lemma stops_app p s t : s ≠ "" → stops p s → stops p (s +:+ t).
Proof. by destruct s. Qed.

Lemma word_length s : word s → 1 ≤ String.length s.
Proof. intros [Hne _]. destruct s; [done|simpl; lia]. Qed.

Lemma word_all s : word s → str_all non_space s = true.
Proof. by intros [_ ?]. Qed.

Lemma rep_stop {R : Type} p lo s (k : string → option R) :
  stops p s → 1 ≤ lo → rep p lo s k = None.
Proof.
  intros Hs Hlo. destruct s as [|c s]; simpl.
  - rewrite decide_False; [done|lia].
  - simpl in Hs. rewrite Hs, decide_False; [done|lia].
Qed.

Lemma rstrip_app_space s c : isspace c = true → rstrip (s +:+ String c "") = rstrip s.
Proof.
  intros Hc. induction s as [|a s IH].
  - simpl. by rewrite Hc.
  - rewrite app_cons. simpl. by rewrite IH.
Qed.

(** The groups of a line made of a prefix, a command, a target and a
    trailing text [cap], followed by [rest]: nothing, or a line feed and
    whatever comes after it. *)
Lemma pat_match_line nick user command target cap rest :
  nick ≠ "" → str_all not_bang nick = true →
  word user → word command → word target →
  stops (λ c, bool_decide (c = ":"%char)) target →
  str_all dot cap = true → stops marker cap →
  stops dot rest → stops marker rest →
  pat_match (":" +:+ nick +:+ "!" +:+ user +:+ " " +:+ command +:+ " " +:+
             target +:+ " :" +:+ cap +:+ rest)
  = Some [Some nick; Some user; Some command; Some target; Some cap; None].
Proof.
  intros Hn Hnb Hu Hc Ht Htc Hdot Hmark Hrd Hrm.
  unfold pat_match, re_match, pat.
  change (":" +:+ nick +:+ "!" +:+ user +:+ " " +:+ command +:+ " " +:+
          target +:+ " :" +:+ cap +:+ rest)
    with (String ":" (nick +:+ String "!" (user +:+ String " " (command +:+
          String " " (target +:+ " " +:+ String ":" (cap +:+ rest)))))).
  rewrite re_run_cat, re_run_chr.
  rewrite re_run_cat. apply re_run_grp; [done| |done|].
  { destruct nick; [done|simpl; lia]. }
  rewrite re_run_cat, re_run_chr.
  rewrite re_run_cat.
  apply re_run_grp; [by apply word_all|by apply word_length|done|].
  rewrite re_run_cat.
  apply (re_run_rep isspace 1 " "); [done|simpl; lia| |].
  { apply stops_app; [apply Hc|by apply word_stops]. }
  rewrite re_run_cat.
  apply re_run_grp; [by apply word_all|by apply word_length|done|].
  rewrite re_run_cat.
  apply (re_run_rep isspace 1 " "); [done|simpl; lia| |].
  { apply stops_app; [apply Ht|by apply word_stops]. }
  rewrite re_run_cat, re_run_opt_skip.
  2:{ apply re_run_chr_stop, stops_app; [apply Ht|done]. }
  rewrite re_run_cat.
  apply re_run_grp; [by apply word_all|by apply word_length|done|].
  rewrite re_run_cat.
  apply (re_run_rep isspace 0 " "); [done|simpl; lia|done|].
  rewrite re_run_cat. apply re_run_opt_take.
  rewrite re_run_cat.
  apply (re_run_rep marker 1 ":"); [done|simpl; lia| |].
  { destruct cap; [|done]. destruct rest; done. }
  apply re_run_grp; [done|lia|done|].
  rewrite re_run_opt_skip; [done|].
  rewrite re_run_cat. simpl. by apply rep_stop.
Qed.

(** The dict built from five groups. *)
Lemma make_com_fields nick user command target message data :
  let com := make_com [Some nick; Some user; Some command; Some target;
                       Some message; None] data in
  com !! "nick" = Some (DStr (rstrip nick)) ∧
  com !! "user" = Some (DStr (rstrip user)) ∧
  com !! "action" = Some (DStr (rstrip command)) ∧
  com !! "recipient" = Some (DStr (rstrip target)) ∧
  com !! "message" = Some (DStr (rstrip message)) ∧
  com !! "orig" = Some (DStr data).
Proof. unfold make_com. simpl. by split_and!. Qed.

(** Whatever a repetition answers, the rest of the pattern answered it. *)
Lemma rep_inv {R : Type} p lo s (k : string → option R) x :
  rep p lo s k = Some x → ∃ s', k s' = Some x.
Proof.
  revert lo. induction s as [|c s IH]; intros lo; simpl.
  - case_decide; [eauto|done].
  - destruct (p c).
    + destruct (rep p (pred lo) s k) eqn:Hr.
      * intros [= <-]. by eapply IH.
      * case_decide; [eauto|done].
    + case_decide; [eauto|done].
Qed.

Lemma re_run_chr_inv c s g k x :
  re_run (Chr c) s g k = Some x → ∃ s', k s' g = Some x.
Proof. destruct s as [|c' s]; simpl; [done|]. case_decide; [eauto|done]. Qed.

Lemma re_run_rep_inv p lo s g k x :
  re_run (Rep p lo) s g k = Some x → ∃ s', k s' g = Some x.
Proof. simpl. apply rep_inv. Qed.

Lemma re_run_grp_inv p lo i s g k x :
  re_run (Grp i (Rep p lo)) s g k = Some x →
  ∃ s' v, k s' (<[pred i := Some v]> g) = Some x.
Proof. simpl. intros [s' Hs']%rep_inv. eauto. Qed.

Lemma re_run_opt_inv r s g k x :
  re_run (Opt r) s g k = Some x → re_run r s g k = Some x ∨ k s g = Some x.
Proof. simpl. destruct (re_run r s g k); [intros [= <-]; by left|by right]. Qed.

(** The tail of the pattern, from the first optional group on, only adds
    to groups 5 and 6. *)
Lemma pat_tail_inv s (g : groups) x :
  re_run (Opt (Cat (Rep marker 1) (Grp 5 (Rep dot 0))))
         s g (λ s' g', re_run (Opt (Cat (Rep marker 1) (Grp 6 (Rep dot 0))))
                              s' g' (λ _ g'', Some g'')) = Some x →
  ∃ g5 g6, (g5 = g ∨ ∃ v, g5 = <[4 := Some v]> g) ∧
           (g6 = g5 ∨ ∃ v, g6 = <[5 := Some v]> g5) ∧ x = g6.
Proof.
  intros [H5|H5]%re_run_opt_inv.
  - rewrite re_run_cat in H5. apply re_run_rep_inv in H5 as [s1 H5].
    apply re_run_grp_inv in H5 as (s2 & v & H5).
    apply re_run_opt_inv in H5 as [H6|[= <-]].
    + rewrite re_run_cat in H6. apply re_run_rep_inv in H6 as [s3 H6].
      apply re_run_grp_inv in H6 as (s4 & v' & [= <-]).
      exists (<[4 := Some v]> g), (<[5 := Some v']> (<[4 := Some v]> g)). naive_solver.
    + exists (<[4 := Some v]> g), (<[4 := Some v]> g). naive_solver.
  - apply re_run_opt_inv in H5 as [H6|[= <-]].
    + rewrite re_run_cat in H6. apply re_run_rep_inv in H6 as [s3 H6].
      apply re_run_grp_inv in H6 as (s4 & v' & [= <-]).
      exists g, (<[5 := Some v']> g). naive_solver.
    + exists g, g. naive_solver.
Qed.

(** Groups 1 to 4 take part in every match. *)
Lemma pat_match_groups data g :
  pat_match data = Some g →
  ∃ n u a r o5 o6, g = [Some n; Some u; Some a; Some r; o5; o6].
Proof.
  unfold pat_match, re_match, pat. intros Hm.
  rewrite re_run_cat in Hm. apply re_run_chr_inv in Hm as [s1 Hm].
  rewrite re_run_cat in Hm. apply re_run_grp_inv in Hm as (s2 & n & Hm).
  rewrite re_run_cat in Hm. apply re_run_chr_inv in Hm as [s3 Hm].
  rewrite re_run_cat in Hm. apply re_run_grp_inv in Hm as (s4 & u & Hm).
  rewrite re_run_cat in Hm. apply re_run_rep_inv in Hm as [s5 Hm].
  rewrite re_run_cat in Hm. apply re_run_grp_inv in Hm as (s6 & a & Hm).
  rewrite re_run_cat in Hm. apply re_run_rep_inv in Hm as [s7 Hm].
  rewrite re_run_cat in Hm.
  assert (∃ s8, re_run (Grp 4 (Rep non_space 1) ⋅ Rep isspace 0 ⋅
            Opt (Rep marker 1 ⋅ Grp 5 (Rep dot 0)) ⋅
            Opt (Rep marker 1 ⋅ Grp 6 (Rep dot 0)))%re s8
            (<[2 := Some a]> (<[1 := Some u]> (<[0 := Some n]> (replicate 6 None))))
            (λ _ g, Some g) = Some g) as [s8 Hm'].
  { apply re_run_opt_inv in Hm as [Hm|Hm]; [|by eauto].
    apply re_run_chr_inv in Hm as [s8 Hm]. by eauto. }
  clear Hm. rename Hm' into Hm.
  rewrite re_run_cat in Hm. apply re_run_grp_inv in Hm as (s9 & r & Hm).
  rewrite re_run_cat in Hm. apply re_run_rep_inv in Hm as [s10 Hm].
  rewrite re_run_cat in Hm.
  apply pat_tail_inv in Hm as (g5 & g6 & H5 & H6 & ->).
  destruct H5 as [->|[v ->]], H6 as [->|[v' ->]]; simpl; eauto 10.
Qed.

Lemma parse_action data com :
  parse data = Some com → ∃ a, com !! "action" = Some (DStr a).
Proof.
  unfold parse. destruct (pat_match data) as [g|] eqn:Hg; [|done].
  intros [= <-].
  destruct (pat_match_groups _ _ Hg) as (n & u & a & r & o5 & o6 & ->).
  exists (rstrip a). unfold make_com.
  destruct o5, o6; reflexivity.
Qed.

(** * Facts about the bot *)

Lemma get_cchar c : get c "cchar" = None.
Proof. reflexivity. Qed.

Lemma getattr_irc self action : getattr self ("irc_" +:+ action) = None.
Proof. reflexivity. Qed.

Lemma debug_out_ok string self : (debug_out string self).2 = Ok tt.
Proof. reflexivity. Qed.

Lemma debug_out_frame string self :
  (debug_out string self).1 = set_stdout (stdout (debug_out string self).1) self.
Proof. unfold debug_out, modify. simpl. destruct self as [? ? []]; reflexivity. Qed.

Lemma debug_out_eq string self :
  debug_out string self = (set_stdout (stdout (debug_out string self).1) self, Ok tt).
Proof. rewrite <- debug_out_frame. reflexivity. Qed.

(** [handle_msg] ends where [getattr] raises: all it does to the bot is
    the debug line. *)
Lemma handle_msg_no_dispatch fuel data self :
  handle_msg fuel data self =
  match parse data with
  | None => (self, Ok tt)
  | Some com =>
      debug_out ("%oCalling event handler for " +:+
                 from_option dval_str "" (com !! "action")) self
  end.
Proof.
  unfold handle_msg. destruct (parse data) as [com|] eqn:Hp; [|done].
  destruct (parse_action _ _ Hp) as [a Ha].
  unfold except_AttributeError, mbind, St_bind, getitem. rewrite Ha. simpl.
  unfold debug_out, modify. by destruct (debug self).
Qed.

Lemma send_spec string self :
  send string self =
  match next_fault (soc self) with
  | None =>
      (set_soc (mkSocket (sock_closed (soc self)) (answered (soc self))
                         (sock_log (soc self) ++ [Sent (string +:+ CRLF)])) self,
       Ok tt)
  | Some err =>
      debug_out err
        (set_soc (mkSocket (sock_closed (soc self)) (answered (soc self))
                           (sock_log (soc self) ++ [Failed (string +:+ CRLF) err])) self)
  end.
Proof. unfold send, soc_send. by destruct (next_fault (soc self)). Qed.

(** *** Steps that keep an observation of the state *)

Section Keeps.
Context {S X : Type} (ev : S → X).

Lemma keeps_ret {A} (a : A) : keeps ev (mret a).
Proof. by intros s. Qed.

Lemma keeps_raise {A} (e : exn) : keeps ev (raise (A := A) e).
Proof. by intros s. Qed.

Lemma keeps_gets {A} (f : S → A) : keeps ev (gets f).
Proof. by intros s. Qed.

Lemma keeps_modify (f : S → S) : (∀ s, ev (f s) = ev s) → keeps ev (modify f).
Proof. intros Hf s. apply Hf. Qed.

Lemma keeps_bind {A B} (m : St S A) (f : A → St S B) :
  keeps ev m → (∀ a, keeps ev (f a)) → keeps ev (m ≫= f).
Proof.
  intros Hm Hf s. unfold mbind, St_bind. specialize (Hm s).
  destruct (m s) as [s' [a|e]]; simpl in *; [|done].
  by rewrite Hf.
Qed.

Lemma keeps_getitem (data : dict) key : keeps ev (getitem data key).
Proof. unfold getitem. destruct (data !! key); [apply keeps_ret|apply keeps_raise]. Qed.

Lemma keeps_index0 v : keeps ev (index0 v).
Proof. destruct v as [[|c s]|[|t l]]; by intros s'. Qed.

Lemma keeps_split_dval v : keeps ev (split_dval v).
Proof. destruct v as [s|l]; simpl; [destruct (split s)|]; by intros s'. Qed.
End Keeps.

Lemma keeps_on_bot {X A} (ev : Bot → X) (m : M A) :
  keeps ev m → keeps (λ s : Bot * dict, ev s.1) (on_bot m).
Proof.
  intros Hm [self data]. unfold on_bot. specialize (Hm self).
  by destruct (m self).
Qed.

Lemma keeps_debug_out string : keeps events (debug_out string).
Proof. intros self. rewrite debug_out_frame. by destruct self. Qed.

Lemma keeps_send string : keeps events (send string).
Proof.
  intros self. rewrite send_spec. destruct (next_fault (soc self)); [|by destruct self].
  rewrite debug_out_frame. by destruct self.
Qed.

Lemma keeps_quit : keeps events quit.
Proof.
  unfold quit. apply keeps_bind; [apply keeps_send|intros _].
  apply keeps_bind; [|intros _; apply keeps_raise].
  apply keeps_modify. by intros [].
Qed.

(** One step of such a proof, for a goal [keeps ev m]. *)
Ltac keeps_step :=
  first
    [ apply keeps_bind; [|intros ?]
    | apply keeps_ret | apply keeps_raise | apply keeps_gets
    | apply keeps_getitem | apply keeps_index0 | apply keeps_split_dval
    | apply (keeps_on_bot events); first [apply keeps_debug_out | apply keeps_quit]
    | case_match ].

Lemma keeps_on_command : keeps (λ s : Bot * dict, events s.1) on_command.
Proof. unfold on_command. repeat keeps_step. Qed.

Lemma keeps_on_kick : keeps (λ s : Bot * dict, events s.1) on_kick.
Proof.
  unfold on_kick. repeat keeps_step.
  apply (keeps_on_bot events), keeps_send.
Qed.

Lemma on_privmsg_inert publish self data :
  (on_privmsg publish (self, data)).1 = (self, data) ∧
  ∀ publish', on_privmsg publish' (self, data) = on_privmsg publish (self, data).
Proof.
  unfold on_privmsg, mbind, St_bind, gets, getitem. simpl.
  destruct (data !! "message") as [[[|c s]|[|t l]]|]; simpl; try done.
Qed.

(** All [on_privmsg] ever does: it reads the first item of the message,
    finds it different from the missing setting, and returns. *)
Lemma on_privmsg_spec publish self data :
  on_privmsg publish (self, data) =
  (self, data,
   match data !! "message" with
   | None => Raise (KeyError "message")
   | Some (DStr EmptyString) | Some (DList []) => Raise IndexError
   | Some _ => Ok tt
   end).
Proof.
  unfold on_privmsg, mbind, St_bind, gets, getitem. simpl.
  destruct (data !! "message") as [[[|c s]|[|t l]]|]; simpl; try done.
Qed.

(** The parse of a line whose groups are known. *)
Lemma parse_groups data g :
  pat_match data = Some g → parse data = Some (make_com g data).
Proof. unfold parse. by intros ->. Qed.

(** No handler of the bot subscribes or unsubscribes: the events are the
    same after any handler call. *)
Lemma run_handler_keeps_events fuel h data self :
  events (run_handler fuel h data self).1.1 = events self.
Proof.
  destruct fuel as [|fuel]; [done|]. destruct h; cbn [run_handler].
  - rewrite (keeps_on_command (_, data)). by destruct self.
  - rewrite (proj1 (on_privmsg_inert _ _ _)). by destruct self.
  - rewrite (keeps_on_kick (_, data)). by destruct self.
  - by destruct self.
Qed.

(** * The properties of the specification *)

(** ** The event bus *)

(** C10.  The handler list of an event is free of duplicates at
    all times: it is so for every event reached from the empty one by
    [+=] and [-=], both operations keep it so ([-=] never raises), and a
    call hands back the event it was made on, its list untouched. *)
Theorem C10_handlers_duplicate_free {H : Type} `{EqDecision H} {A W : Type}
    (invoke : H → A → W → W * A * outcome unit) (e : Event H) :
  reachable e →
  NoDup (handlers e) ∧
  (∀ h, NoDup (handlers (iadd e h))) ∧
  (∀ h, ∃ e', isub e h = Ok e' ∧ NoDup (handlers e')) ∧
  (∀ a w, result (Event_call invoke e a w) = Ok e ∨
          ∃ x, result (Event_call invoke e a w) = Raise x).
Proof.
  intros Hr. pose proof (reachable_NoDup e Hr) as Hnd. split_and!.
  - done.
  - intros h. by apply iadd_NoDup.
  - intros h. destruct (isub_total e h) as [e' He']. exists e'. split; [done|].
    by apply (isub_NoDup e h e').
  - intros a w. unfold Event_call. simpl.
    destruct (result (for_handlers invoke (handlers e) a w)); eauto.
Qed.

Lemma C10_witness :
  reachable (iadd (iadd Event_init OnCommand) OnPrivmsg) ∧
  NoDup (handlers (iadd (iadd Event_init OnCommand) OnPrivmsg)).
Proof.
  assert (reachable (iadd (iadd Event_init OnCommand) OnPrivmsg)) as Hr
    by (do 2 apply reach_iadd; apply reach_init).
  split; [exact Hr|].
  exact (proj1 (C10_handlers_duplicate_free (run_handler 1) _ Hr)).
Defined.




(** C2.  A handler that raises ends the call: the exception
    goes to the caller, the handlers before it have run in subscription
    order, and no handler subscribed after it is invoked. *)
Theorem C2_raise_ends_publish {H : Type} `{EqDecision H} {A W : Type}
    (invoke : H → A → W → W * A * outcome unit)
    (e : Event H) (pre post : list H) (h : H) (a : A) (w : W) (x : exn) :
  reachable e →
  handlers e = pre ++ h :: post →
  result (for_handlers invoke pre a w) = Ok tt →
  (invoke h (arg (for_handlers invoke pre a w))
            (world (for_handlers invoke pre a w))).2 = Raise x →
  result (Event_call invoke e a w) = Raise x ∧
  invoked (Event_call invoke e a w) = pre ++ [h] ∧
  ∀ h', h' ∈ post → h' ∉ invoked (Event_call invoke e a w).
Proof.
  intros Hr He Hpre Hh.
  assert (result (Event_call invoke e a w) = Raise x ∧
          invoked (Event_call invoke e a w) = pre ++ [h]) as [Hres Hinv].
  { unfold Event_call. simpl. rewrite He.
    rewrite (for_handlers_app invoke pre (h :: post) a w Hpre). simpl.
    destruct (invoke h _ _) as [[w' a'] [[]|y]]; simpl in *; [done|].
    by injection Hh as ->. }
  split_and!; [done..|].
  intros h' Hpost. rewrite Hinv.
  pose proof (reachable_NoDup e Hr) as Hnd. rewrite He in Hnd.
  apply NoDup_app in Hnd as (_ & Hdis & Hnd).
  apply NoDup_cons in Hnd as [Hh' _].
  rewrite elem_of_app, list_elem_of_singleton. intros [Hin| ->]; [|done].
  apply (Hdis h' Hin). by right.
Qed.

Lemma C2_witness :
  let e := iadd (iadd (iadd Event_init (Printing "a")) Failing) (Printing "b") in
  reachable e ∧
  result (Event_call plain_invoke e "m" []) = Raise (ValueError "boom") ∧
  invoked (Event_call plain_invoke e "m" []) = [Printing "a"; Failing] ∧
  ∀ h', h' ∈ [Printing "b"] → h' ∉ invoked (Event_call plain_invoke e "m" []).
Proof.
  intros e.
  assert (reachable e) as Hr by (do 3 apply reach_iadd; apply reach_init).
  split; [exact Hr|].
  exact (C2_raise_ends_publish plain_invoke e
           [Printing "a"] [Printing "b"] Failing "m" [] (ValueError "boom")
           Hr eq_refl eq_refl eq_refl).
Defined.

(** C2 as stated fails: with a raising handler subscribed before a printing
    one, the call raises and the printing handler is not invoked. *)
Lemma C2_counterexample :
  ¬ invokes_all plain_invoke (iadd (iadd Event_init Failing) (Printing "p")) "m" [].
Proof.
  intros Hall. specialize (Hall (Printing "p")).
  assert (Printing "p" ∈ [Failing]) as Hin by (apply Hall; vm_compute; set_solver).
  apply list_elem_of_singleton in Hin. discriminate.
Qed.

(** ** The send path *)

(** C9.  [send] hands the socket the text followed by CR LF,
    once; when the write fails the error text goes to the debug console if
    debugging is on, and in every case [send] returns normally: the caller
    is not told. *)
Theorem C9_send_terminates_line_and_keeps_failure (string : string) (self : Bot) :
  (send string self).2 = Ok tt ∧
  sock_log (soc (send string self).1) =
    sock_log (soc self) ++ [attempt (soc self) (string +:+ CRLF)] ∧
  stdout (send string self).1 =
    stdout self ++
    match next_fault (soc self) with
    | Some err => if debug self then console_lines err else []
    | None => []
    end.
Proof.
  rewrite send_spec. unfold attempt.
  destruct (next_fault (soc self)) as [err|]; simpl.
  - unfold debug_out, modify. simpl. destruct (debug self); simpl.
    + done.
    + by rewrite app_nil_r.
  - by rewrite app_nil_r.
Qed.

(** C9 as stated fails: the write of [deaf_bot] fails, [send] returns
    normally all the same. *)
Lemma C9_counterexample : ¬ reports_failure "PRIVMSG #jaintp :hello" deaf_bot.
Proof.
  intros Hrep. destruct Hrep as [e He]; [done|]. vm_compute in He. discriminate.
Qed.

(** ** Keep-alive *)

(** C6.  One turn of the read loop on [PING :abc123], with or
    without the line terminator, makes exactly one write, of the line
    [PONG :abc123], whatever the state of the bot; the turn returns
    normally and calls no handler. *)
Theorem C6_ping_answered_with_pong (fuel : nat) (self : Bot) (data : string) :
  data = "PING :abc123" ∨ data = "PING :abc123" +:+ CRLF →
  (mainloop_body fuel data self).2 = Ok tt ∧
  sock_log (soc (mainloop_body fuel data self).1) =
    sock_log (soc self) ++ [attempt (soc self) ("PONG :abc123" +:+ CRLF)] ∧
  calls (mainloop_body fuel data self).1 = calls self.
Proof.
  destruct self as [cfg conn dbg nk ow pl srv sk e1 e2 e3 e4 e5 e6 out cl].
  intros [-> | ->].
  all: unfold mainloop_body, send_action, mbind, St_bind; simpl.
  all: rewrite send_spec; unfold attempt; simpl.
  all: destruct (next_fault sk) as [err|]; simpl.
  all: unfold debug_out, modify; simpl.
  all: by destruct dbg.
Qed.

Lemma C6_witness :
  sock_log (soc (mainloop_body 1 "PING :abc123" ready_bot).1) =
    sock_log (soc ready_bot) ++ [Sent ("PONG :abc123" +:+ CRLF)].
Proof.
  exact (proj1 (proj2 (C6_ping_answered_with_pong 1 ready_bot "PING :abc123"
                         (or_introl eq_refl)))).
Defined.

Lemma app_assoc_str s t u : (s +:+ t) +:+ u = s +:+ t +:+ u.
Proof. induction s as [|c s IH]; [done|]. by rewrite !app_cons, IH. Qed.

Lemma words_run run rest w :
  str_all non_space run = true → words (run +:+ rest) w = words rest (w +:+ run).
Proof.
  revert w. induction run as [|c run IH]; intros w Hall.
  - by rewrite app_empty_r.
  - rewrite app_cons. simpl in *. apply andb_prop in Hall as [Hc Hall].
    apply negb_true_iff in Hc. rewrite Hc, (IH _ Hall).
    by rewrite app_assoc_str.
Qed.

Lemma words_blank ws : str_all isspace ws = true → words ws "" = [].
Proof.
  induction ws as [|c ws IH]; [done|]. simpl.
  intros [-> Hall]%andb_prop. by apply IH.
Qed.

Lemma words_last ws w :
  str_all isspace ws = true → w ≠ "" → words ws w = [w].
Proof.
  intros Hall Hw. destruct ws as [|c ws]; simpl.
  - by rewrite decide_False.
  - simpl in Hall. apply andb_prop in Hall as [-> Hall].
    rewrite decide_False by done. by rewrite words_blank.
Qed.

(** The token of any keep-alive line is echoed: for a token free of blanks
    and a line end made of blanks, the turn writes [PONG], a space and the
    token, once. *)
Lemma ping_echoes_token fuel self token eol :
  word token → str_all isspace eol = true →
  str_in "End of /MOTD" ("PING " +:+ token +:+ eol) = false →
  (mainloop_body fuel ("PING " +:+ token +:+ eol) self).2 = Ok tt ∧
  sock_log (soc (mainloop_body fuel ("PING " +:+ token +:+ eol) self).1) =
    sock_log (soc self) ++ [attempt (soc self) ("PONG " +:+ token +:+ CRLF)].
Proof.
  intros [Hne Hall] Heol Hmotd.
  assert (str_split ("PING " +:+ token +:+ eol) = ["PING"; token]) as Hsplit.
  { unfold str_split.
    change ("PING " +:+ token +:+ eol)
      with (String "P" (String "I" (String "N" (String "G" (String " " (token +:+ eol)))))).
    simpl. rewrite (words_run token eol "" Hall).
    change ("" +:+ token) with token. by rewrite words_last. }
  destruct self as [cfg conn dbg nk ow pl srv sk e1 e2 e3 e4 e5 e6 out cl].
  unfold mainloop_body. rewrite Hmotd, Hsplit.
  change (startswith ("PING " +:+ token +:+ eol) "PING") with true.
  unfold send_action, mbind, St_bind; simpl.
  rewrite send_spec; unfold attempt; simpl.
  destruct (next_fault sk) as [err|]; simpl.
  all: unfold debug_out, modify; simpl.
  all: by destruct dbg.
Qed.

(** ** The shutdown command *)

Lemma existsb_dval_is sender l :
  existsb (dval_is (DStr sender)) l = true ↔ sender ∈ l.
Proof.
  rewrite existsb_exists. split.
  - intros (x & Hx & Heq). apply list_elem_of_In in Hx.
    unfold dval_is in Heq. apply bool_decide_eq_true in Heq. congruence.
  - intros Hin. exists sender. split; [by apply list_elem_of_In|].
    unfold dval_is. by apply bool_decide_eq_true.
Qed.

Lemma quit_spec self :
  session_terminated self (quit self).1 (quit self).2.
Proof.
  unfold session_terminated, quit, mbind, St_bind. rewrite send_spec.
  unfold attempt, debug_out, modify, raise.
  destruct self as [cfg conn dbg nk ow pl srv sk e1 e2 e3 e4 e5 e6 out cl]; simpl.
  destruct (next_fault sk) as [err|]; simpl; [destruct dbg|]; simpl.
  all: split_and!; try done.
  all: by rewrite <- app_assoc.
Qed.

(** What [on_command] does with a COMMAND event, case by case. *)
Lemma on_command_spec self data sender tok args :
  data !! "nick" = Some (DStr sender) →
  data !! "message" = Some (DList (tok :: args)) →
  let self' := (debug_out ("%oHandling command%g: %o" +:+ tok) self).1 in
  on_command (self, data) =
  if bool_decide (sender ∈ owners self) && bool_decide (tok = "die")
  then let r := quit (debug_out "%oQuitting%g..." self').1 in (r.1, data, r.2)
  else (self', data, Ok tt).
Proof.
  intros Hn Hm.
  destruct self as [cfg conn dbg nk ow pl srv sk e1 e2 e3 e4 e5 e6 out cl].
  unfold on_command, mbind, St_bind, gets, getitem, on_bot, debug_out, modify.
  simpl. rewrite Hm. simpl. rewrite Hn. simpl.
  assert (existsb (dval_is (DStr sender)) ow = bool_decide (sender ∈ ow)) as Hex.
  { destruct (existsb _ ow) eqn:Hex; symmetry.
    - by apply bool_decide_eq_true, existsb_dval_is.
    - apply bool_decide_eq_false. rewrite <- existsb_dval_is. congruence. }
  destruct dbg; simpl; rewrite Hex.
  all: destruct (bool_decide (sender ∈ ow)); simpl; [|done].
  all: destruct (bool_decide (tok = "die")); simpl; [|done].
  all: by destruct (quit _).
Qed.

(** C5.  A COMMAND event, with the sender's nick and the
    command tokens, terminates the session (QUIT handed to the socket, the
    socket closed, exit with status 0) exactly when the sender is one of the
    owners and the first token is [die].  In every other case, the keyword
    from anyone else among them, [on_command] returns normally and has not
    touched the socket: no QUIT, no close, no exit. *)
Theorem C5_shutdown_only_by_owner (self : Bot) (data : dict)
    (sender tok : string) (args : list string) :
  data !! "nick" = Some (DStr sender) →
  data !! "message" = Some (DList (tok :: args)) →
  (session_terminated self (on_command (self, data)).1.1 (on_command (self, data)).2
   ↔ sender ∈ owners self ∧ tok = "die") ∧
  (¬ (sender ∈ owners self ∧ tok = "die") →
   (on_command (self, data)).2 = Ok tt ∧
   soc (on_command (self, data)).1.1 = soc self ∧
   (on_command (self, data)).1.2 = data).
Proof.
  intros Hn Hm. rewrite (on_command_spec self data sender tok args Hn Hm).
  assert (soc (debug_out ("%oHandling command%g: %o" +:+ tok) self).1 = soc self) as Hsoc
    by (rewrite debug_out_frame; by destruct self).
  destruct (bool_decide (sender ∈ owners self)) eqn:Ho;
    [apply bool_decide_eq_true in Ho|apply bool_decide_eq_false in Ho].
  2:{ cbn [andb fst snd]. split; [|done].
      split; [intros [[=] _]|intros [? _]; done]. }
  destruct (bool_decide (tok = "die")) eqn:Ht;
    [apply bool_decide_eq_true in Ht|apply bool_decide_eq_false in Ht].
  2:{ cbn [andb fst snd]. split; [|done].
      split; [intros [[=] _]|intros [_ ?]; done]. }
  cbn [andb fst snd]. split; [|intros []; done].
  split; [done|intros _].
  pose proof (quit_spec (debug_out "%oQuitting%g..."
      (debug_out ("%oHandling command%g: %o" +:+ tok) self).1).1) as (Hq & Hc & Hl).
  split_and!; [done..|].
  rewrite Hl. rewrite (debug_out_frame "%oQuitting%g..."), (debug_out_frame _ self).
  by destruct self.
Qed.

Lemma C5_witness :
  let data : dict :=
    <["message" := DList ["die"]]> (<["nick" := DStr "JaINTP"]> ∅) in
  session_terminated ready_bot (on_command (ready_bot, data)).1.1
                     (on_command (ready_bot, data)).2.
Proof.
  intros data.
  assert (data !! "nick" = Some (DStr "JaINTP")) as Hn by reflexivity.
  assert (data !! "message" = Some (DList ["die"])) as Hm by reflexivity.
  apply (proj1 (C5_shutdown_only_by_owner ready_bot data "JaINTP" "die" [] Hn Hm)).
  split; [|reflexivity]. vm_compute. set_solver.
Defined.

(** The same event as the bus delivers it: published on the COMMAND signal
    of a bot whose handlers are those of [init_events]. *)
Lemma command_event_shutdown fuel self data sender tok args :
  handlers (irc_COMMAND self) = [OnCommand; OnPrivmsg] →
  data !! "nick" = Some (DStr sender) →
  data !! "message" = Some (DList (tok :: args)) →
  session_terminated self (publish (S fuel) (irc_COMMAND self) data self).1
                     (publish (S fuel) (irc_COMMAND self) data self).2
  ↔ sender ∈ owners self ∧ tok = "die".
Proof.
  intros Hh Hn Hm. unfold publish, Event_call. rewrite Hh.
  cbn [for_handlers run_handler].
  pose proof (C := on_command_spec (set_calls (calls self ++ [OnCommand]) self)
                     data sender tok args Hn Hm).
  cbv zeta in C. rewrite C. clear C.
  replace (owners (set_calls (calls self ++ [OnCommand]) self)) with (owners self)
    by (by destruct self).
  destruct (bool_decide (sender ∈ owners self)) eqn:Ho;
    [apply bool_decide_eq_true in Ho|apply bool_decide_eq_false in Ho];
  (destruct (bool_decide (tok = "die")) eqn:Ht;
    [apply bool_decide_eq_true in Ht|apply bool_decide_eq_false in Ht]);
  cbn [andb].
  2-4: unfold on_privmsg, mbind, St_bind, gets, getitem; simpl; rewrite Hm; simpl.
  2-4: split; [intros [[=] _]|intros [? ?]; done].
  split; [done|intros _].
  match goal with
  | |- context [quit ?b] =>
      pose proof (quit_spec b) as (Hq & Hc & Hl); destruct (quit b) as [b' r]
  end.
  cbn [fst snd] in *. subst r. cbn. split_and!; [done..|].
  rewrite Hl, (debug_out_frame "%oQuitting%g..."), (debug_out_frame _ (set_calls _ self)).
  by destruct self.
Qed.

(** ** The parser *)

Lemma stops_marker_cr trailing :
  stops marker trailing → stops marker (trailing +:+ String "013" "").
Proof. by destruct trailing. Qed.

Lemma str_all_app p s t : str_all p (s +:+ t) = str_all p s && str_all p t.
Proof.
  induction s as [|c s IH]; [done|]. rewrite app_cons. simpl.
  by rewrite IH, andb_assoc.
Qed.

(** C3.  A line [:nick!user@host COMMAND target :trailing],
    alone or followed by CR LF, whose nick, user\@host, command and target
    are non-empty and free of blanks, with no [!] in the nick and no [:] at
    the start of the target, and whose trailing text has no line feed, does
    not start with [:], [+] or [-] and does not end in a blank, parses to
    the nick, the user\@host, the command, the target and the trailing text,
    each in its own field. *)
Theorem C3_prefixed_line_parses (nick user command target trailing eol : string) :
  word nick → str_all not_bang nick = true →
  word user → word command →
  word target → stops (λ c, bool_decide (c = ":"%char)) target →
  str_all dot trailing = true → stops marker trailing → rstrip trailing = trailing →
  eol = "" ∨ eol = CRLF →
  parses_as (":" +:+ nick +:+ "!" +:+ user +:+ " " +:+ command +:+ " " +:+
             target +:+ " :" +:+ trailing +:+ eol)
            nick user command target trailing.
Proof.
  intros Hn Hnb Hu Hc Ht Htc Hdot Hmark Hrs Heol.
  assert (∃ cap rest, trailing +:+ eol = cap +:+ rest ∧ rstrip cap = trailing ∧
            str_all dot cap = true ∧ stops marker cap ∧
            stops dot rest ∧ stops marker rest)
    as (cap & rest & Heq & Hcap & Hcd & Hcm & Hrd & Hrm).
  { destruct Heol as [-> | ->].
    - exists trailing, "". by rewrite app_empty_r.
    - exists (trailing +:+ String "013" ""), LF. split_and!; try done.
      + clear. induction trailing as [|c t IH]; [done|]. by rewrite !app_cons, IH.
      + by rewrite rstrip_app_space.
      + by rewrite str_all_app, Hdot.
      + by apply stops_marker_cr. }
  eexists. unfold parse.
  replace (":" +:+ nick +:+ "!" +:+ user +:+ " " +:+ command +:+ " " +:+
           target +:+ " :" +:+ trailing +:+ eol)
    with (":" +:+ nick +:+ "!" +:+ user +:+ " " +:+ command +:+ " " +:+
          target +:+ " :" +:+ cap +:+ rest) by (by rewrite <- Heq).
  rewrite pat_match_line; [|done || apply Hn..].
  split; [reflexivity|].
  destruct (make_com_fields nick user command target cap
              (":" +:+ nick +:+ "!" +:+ user +:+ " " +:+ command +:+ " " +:+
               target +:+ " :" +:+ cap +:+ rest)) as (F1 & F2 & F3 & F4 & F5 & _).
  rewrite F1, F2, F3, F4, F5, Hcap.
  rewrite !rstrip_no_space by (done || apply Hn || apply Hu || apply Hc || apply Ht).
  done.
Qed.

Lemma C3_witness :
  parses_as (":alice!~al@example.org PRIVMSG #jaintp :hello there" +:+ CRLF)
            "alice" "~al@example.org" "PRIVMSG" "#jaintp" "hello there".
Proof.
  apply (C3_prefixed_line_parses "alice" "~al@example.org" "PRIVMSG" "#jaintp"
           "hello there" CRLF).
  all: try (split; [discriminate|reflexivity]).
  all: try reflexivity.
  by right.
Defined.

(** C3 as stated fails on a trailing text that starts with a marker
    character: its leading [-] is taken for part of the marker. *)
Lemma C3_counterexample :
  ¬ parses_as ":nick!user@host PRIVMSG #chan :-)"
              "nick" "user@host" "PRIVMSG" "#chan" "-)".
Proof.
  intros (com & Hp & _ & _ & _ & _ & Hm).
  assert (parse ":nick!user@host PRIVMSG #chan :-)" =
          Some (make_com [Some "nick"; Some "user@host"; Some "PRIVMSG";
                          Some "#chan"; Some ")"; None]
                         ":nick!user@host PRIVMSG #chan :-)")) as Hp'
    by (apply parse_groups; vm_compute; reflexivity).
  rewrite Hp' in Hp. injection Hp as <-.
  destruct (make_com_fields "nick" "user@host" "PRIVMSG" "#chan" ")"
              ":nick!user@host PRIVMSG #chan :-)") as (_ & _ & _ & _ & F5 & _).
  rewrite F5 in Hm. discriminate.
Qed.

Lemma str_in_chr_suffix c s pre c' s' :
  str_in (String c "") s = false → s = pre +:+ String c' s' → c' ≠ c.
Proof.
  revert s. induction pre as [|a pre IH]; intros s Hin ->.
  - change ("" +:+ String c' s') with (String c' s') in Hin. simpl in Hin.
    apply orb_false_elim in Hin as [Hin _].
    intros ->. rewrite decide_True in Hin by done. by destruct s'.
  - rewrite app_cons in Hin. simpl in Hin.
    apply orb_false_elim in Hin as [_ Hin]. by eapply IH.
Qed.

(** C7.  The parser takes no line without the origin prefix:
    a line that does not start with [:], or has no [!] in it, gives no
    message, and [handle_msg] then returns at once, the bot untouched and
    nothing raised.  (The read loop recognises [PING] before the parser is
    asked.) *)
Theorem C7_unprefixed_line_not_parsed (data : string) :
  startswith data ":" = false ∨ str_in "!" data = false →
  parse data = None ∧
  ∀ fuel self, handle_msg fuel data self = (self, Ok tt).
Proof.
  intros Hd.
  assert (parse data = None) as Hp.
  { unfold parse, pat_match, re_match, pat.
    destruct data as [|c s]; [done|].
    rewrite re_run_cat.
    destruct (decide (c = ":"%char)) as [->|Hc].
    2:{ simpl. by rewrite decide_False. }
    destruct Hd as [Hd|Hd]; [discriminate Hd|].
    rewrite re_run_chr, re_run_cat. simpl. rewrite rep_none; [done|].
    intros pre s' ->. destruct s' as [|c' s']; [done|].
    simpl in Hd. rewrite decide_False; [done|].
    intros <-. by eapply (str_in_chr_suffix "!" _ pre "!" s'). }
  split; [done|]. intros fuel self. unfold handle_msg. by rewrite Hp.
Qed.

Lemma C7_witness :
  parse "PING :token" = None ∧
  ∀ fuel self, handle_msg fuel "PING :token" self = (self, Ok tt).
Proof.
  apply (C7_unprefixed_line_not_parsed "PING :token"). left. reflexivity.
Defined.

(** C7 as stated fails: [PING :token] alone does not parse. *)
Lemma C7_counterexample : ¬ parses_command "PING :token" "PING".
Proof. intros (com & Hp & _). vm_compute in Hp. discriminate. Qed.

(** ** Dispatch *)

(** Whatever the line, [handle_msg] invokes no handler, writes nothing to
    the socket and returns normally. *)
Lemma handle_msg_inert fuel data self :
  (handle_msg fuel data self).2 = Ok tt ∧
  calls (handle_msg fuel data self).1 = calls self ∧
  soc (handle_msg fuel data self).1 = soc self.
Proof.
  rewrite handle_msg_no_dispatch. destruct (parse data) as [com|]; [|done].
  split; [apply debug_out_ok|]. rewrite debug_out_frame. by destruct self.
Qed.

(** A turn of the read loop on a line that is neither a PING nor the end
    of the MOTD calls no handler and sends nothing. *)
Lemma mainloop_body_inert fuel data self :
  startswith data "PING" = false → str_in "End of /MOTD" data = false →
  (mainloop_body fuel data self).2 = Ok tt ∧
  calls (mainloop_body fuel data self).1 = calls self ∧
  soc (mainloop_body fuel data self).1 = soc self.
Proof.
  intros Hping Hmotd. unfold mainloop_body. rewrite Hping, Hmotd.
  unfold mbind, St_bind.
  destruct (handle_msg_inert fuel data self) as (Hr & Hc & Hs).
  destruct (handle_msg fuel data self) as [b r]. simpl in Hr, Hc, Hs. subst r.
  rewrite (debug_out_eq _ b). simpl. by rewrite <- Hc, <- Hs.
Qed.

(** C1.  A KICK line naming the bot
    parses, with [KICK] as its command, and the KICK signal has [on_kick]
    subscribed; yet a turn of the read loop on that line invokes no handler
    and sends nothing (no JOIN): [handle_msg] asks for the attribute
    [irc_KICK], the event is stored as [_Bot__irc_KICK], and the
    [AttributeError] is passed over.  The same holds for a PRIVMSG line, and
    indeed for every line and every bot: no name [irc_...] resolves, and
    [handle_msg] invokes no handler at all. *)
Theorem C1_parsed_line_reaches_no_handler :
  let kick := ":op!user@host KICK #jaintp jaintp_bot :bye" in
  let privmsg := ":nick!user@host PRIVMSG #chan :hello" in
  parses_command kick "KICK" ∧
  parses_command privmsg "PRIVMSG" ∧
  handlers (irc_KICK ready_bot) = [OnKick] ∧
  getattr ready_bot "irc_KICK" = None ∧
  getattr ready_bot "_Bot__irc_KICK" = Some (AEvent (irc_KICK ready_bot)) ∧
  (∀ self action, getattr self ("irc_" +:+ action) = None) ∧
  (∀ fuel data self, (handle_msg fuel data self).2 = Ok tt ∧
                     calls (handle_msg fuel data self).1 = calls self ∧
                     soc (handle_msg fuel data self).1 = soc self) ∧
  ∀ fuel,
    (mainloop_body fuel kick ready_bot).2 = Ok tt ∧
    calls (mainloop_body fuel kick ready_bot).1 = [] ∧
    sock_log (soc (mainloop_body fuel kick ready_bot).1) = sock_log (soc ready_bot) ∧
    (mainloop_body fuel privmsg ready_bot).2 = Ok tt ∧
    calls (mainloop_body fuel privmsg ready_bot).1 = [].
Proof.
  intros kick privmsg.
  assert (parse kick =
          Some (make_com [Some "op"; Some "user@host"; Some "KICK";
                          Some "#jaintp"; None; None] kick)) as Hk
    by (apply parse_groups; vm_compute; reflexivity).
  assert (parse privmsg =
          Some (make_com [Some "nick"; Some "user@host"; Some "PRIVMSG";
                          Some "#chan"; Some "hello"; None] privmsg)) as Hp
    by (apply parse_groups; vm_compute; reflexivity).
  split_and!.
  - eexists. split; [exact Hk|reflexivity].
  - eexists. split; [exact Hp|reflexivity].
  - vm_compute. reflexivity.
  - reflexivity.
  - reflexivity.
  - apply getattr_irc.
  - apply handle_msg_inert.
  - intros fuel.
    destruct (mainloop_body_inert fuel kick ready_bot eq_refl eq_refl) as (-> & -> & ->).
    destruct (mainloop_body_inert fuel privmsg ready_bot eq_refl eq_refl) as (-> & -> & _).
    done.
Qed.

(** C4.  Loading a file that sets the
    prefix to [!] fills the slot [command_char]; [on_privmsg] asks for
    [cchar], which no configuration answers, so its test fails and nothing
    is published: a turn of the read loop on [!greet bob] invokes no
    handler, [on_privmsg] called with the parsed message returns without
    publishing, and the line as the specification writes it, without a
    prefix, does not
    even parse. *)
Theorem C4_command_never_published :
  let data := ":alice!user@host PRIVMSG #jaintp :!greet bob" in
  Config_init "irc.cfg" example_lines = Ok example_config ∧
  command_char example_config = Some "!" ∧
  (∀ cfg, get cfg "cchar" = None) ∧
  (∀ publish self com, (on_privmsg publish (self, com)).1 = (self, com)) ∧
  parse "PRIVMSG #chan :!greet bob" = None ∧
  (∃ com, parse data = Some com ∧
          com !! "message" = Some (DStr "!greet bob") ∧
          split "greet bob" = Ok ["greet"; "bob"] ∧
          ∀ fuel, run_handler (S fuel) OnPrivmsg com ready_bot =
                  (set_calls [OnPrivmsg] ready_bot, com, Ok tt)) ∧
  ∀ fuel, (mainloop_body fuel data ready_bot).2 = Ok tt ∧
          calls (mainloop_body fuel data ready_bot).1 = [].
Proof.
  intros data.
  assert (parse data =
          Some (make_com [Some "alice"; Some "user@host"; Some "PRIVMSG";
                          Some "#jaintp"; Some "!greet bob"; None] data)) as Hp
    by (apply parse_groups; vm_compute; reflexivity).
  destruct (make_com_fields "alice" "user@host" "PRIVMSG" "#jaintp" "!greet bob" data)
    as (_ & _ & Ha & _ & Hm & _).
  split_and!.
  - vm_compute. reflexivity.
  - reflexivity.
  - apply get_cchar.
  - intros publish self com. apply on_privmsg_inert.
  - unfold parse. by assert (pat_match "PRIVMSG #chan :!greet bob" = None) as ->
      by (vm_compute; reflexivity).
  - eexists. split_and!; [exact Hp|exact Hm|vm_compute; reflexivity|].
    intros fuel. cbn [run_handler]. rewrite on_privmsg_spec, Hm. reflexivity.
  - intros fuel.
    by destruct (mainloop_body_inert fuel data ready_bot eq_refl eq_refl) as (-> & -> & _).
Qed.

(** * Further properties of the code *)

(** ** The event bus *)

Section EventMore.
Context {H : Type} `{EqDecision H}.
Implicit Types (e : Event H) (h : H) (l : list H).

Lemma list_remove_last h l : h ∉ l → list_remove h (l ++ [h]) = Ok l.
Proof.
  induction l as [|y l IH]; intros Hni; simpl.
  - by rewrite decide_True.
  - apply not_elem_of_cons in Hni as [Hy Hl].
    rewrite decide_False by done. by rewrite IH.
Qed.

Lemma filter_absent h l : h ∉ l → filter (λ x, x ≠ h) l = l.
Proof.
  induction l as [|y l IH]; intros Hni; [done|].
  apply not_elem_of_cons in Hni as [Hy Hl].
  rewrite filter_cons, decide_True by done. by rewrite IH.
Qed.

Lemma list_remove_filter h l l' :
  NoDup l → list_remove h l = Ok l' → l' = filter (λ x, x ≠ h) l.
Proof.
  intros Hnd Hrm. destruct (list_remove_spec _ _ _ Hrm) as (l1 & l2 & -> & -> & Hni).
  apply NoDup_app in Hnd as (_ & Hdis & Hnd). apply NoDup_cons in Hnd as [Hh _].
  rewrite filter_app, filter_cons, decide_False by (by intros ?).
  by rewrite !filter_absent.
Qed.

End EventMore.

(** X1.  A call in which no handler raises invokes the subscribed handlers
    in the order they were subscribed, each of them exactly once, and hands
    back the event. *)
Theorem X1_publish_runs_all_in_order {H : Type} `{EqDecision H} {A W : Type}
    (invoke : H → A → W → W * A * outcome unit) (e : Event H) (a : A) (w : W) :
  reachable e →
  (∀ x, result (Event_call invoke e a w) ≠ Raise x) →
  invoked (Event_call invoke e a w) = handlers e ∧
  result (Event_call invoke e a w) = Ok e ∧
  ∀ h, h ∈ handlers e → times h (invoked (Event_call invoke e a w)) = 1.
Proof.
  intros Hr Hok. unfold Event_call in *. simpl in *.
  destruct (result (for_handlers invoke (handlers e) a w)) as [[]|x] eqn:Hres.
  2:{ by destruct (Hok x). }
  rewrite (for_handlers_ok _ _ _ _ Hres). split_and!; [done..|].
  intros h Hin. apply times_NoDup; [by apply reachable_NoDup|done].
Qed.

Lemma X1_witness :
  invoked (Event_call plain_invoke
             (iadd (iadd Event_init (Printing "a")) (Printing "b")) "m" [])
  = [Printing "a"; Printing "b"].
Proof.
  refine (proj1 (X1_publish_runs_all_in_order plain_invoke
                   (iadd (iadd Event_init (Printing "a")) (Printing "b")) "m" [] _ _)).
  - do 2 apply reach_iadd. apply reach_init.
  - intros x. vm_compute. discriminate.
Defined.

(** X2.  Subscribing a handler that is not subscribed and unsubscribing it
    again gives back the event as it was. *)
Theorem X2_subscribe_then_unsubscribe {H : Type} `{EqDecision H}
    (e : Event H) (h : H) :
  h ∉ handlers e → isub (iadd e h) h = Ok e.
Proof.
  intros Hni. unfold isub. rewrite decide_True by apply iadd_elem.
  rewrite iadd_handlers, decide_False by done.
  rewrite list_remove_last by done. by destruct e.
Qed.

Lemma X2_witness :
  isub (iadd (iadd Event_init OnCommand) OnKick) OnKick = Ok (iadd Event_init OnCommand).
Proof.
  apply (X2_subscribe_then_unsubscribe (iadd Event_init OnCommand) OnKick).
  vm_compute. intros Hin. apply list_elem_of_singleton in Hin. discriminate.
Defined.

(** X3.  Unsubscribing takes out the handler and nothing else, the others
    keeping their order; subscribing it again puts it last. *)
Theorem X3_unsubscribe_keeps_order {H : Type} `{EqDecision H}
    (e : Event H) (h : H) :
  reachable e →
  ∃ e', isub e h = Ok e' ∧
        handlers e' = filter (λ x, x ≠ h) (handlers e) ∧
        handlers (iadd e' h) = filter (λ x, x ≠ h) (handlers e) ++ [h].
Proof.
  intros Hr. pose proof (reachable_NoDup e Hr) as Hnd.
  destruct (isub_total e h) as [e' He']. exists e'.
  assert (handlers e' = filter (λ x, x ≠ h) (handlers e)) as Hf.
  { unfold isub in He'. case_decide as Hin.
    - destruct (list_remove h (handlers e)) as [r|] eqn:Hrm; [|done].
      injection He' as <-. simpl. by apply list_remove_filter.
    - injection He' as <-. by rewrite filter_absent. }
  split_and!; [done..|].
  rewrite iadd_handlers, decide_False; [by rewrite Hf|].
  by destruct (isub_NoDup e h e' Hnd He').
Qed.

Lemma X3_witness :
  ∃ e', isub (iadd (iadd (iadd Event_init OnCommand) OnKick) OnMode) OnKick = Ok e' ∧
        handlers e' = [OnCommand; OnMode] ∧
        handlers (iadd e' OnKick) = [OnCommand; OnMode; OnKick].
Proof.
  assert (reachable (iadd (iadd (iadd Event_init OnCommand) OnKick) OnMode)) as Hr
    by (do 3 apply reach_iadd; apply reach_init).
  exact (X3_unsubscribe_keeps_order
           (iadd (iadd (iadd Event_init OnCommand) OnKick) OnMode) OnKick Hr).
Defined.

(** X4.  A handler subscribed last runs last: a call of the event with the
    new handler is the call of the event without it, followed, when that
    one did not raise, by the new handler on the world and the argument it
    left. *)
Theorem X4_new_handler_runs_last {H : Type} `{EqDecision H} {A W : Type}
    (invoke : H → A → W → W * A * outcome unit) (e : Event H) (h : H) (a : A) (w : W) :
  h ∉ handlers e →
  let r := Event_call invoke e a w in
  let r' := Event_call invoke (iadd e h) a w in
  match result r with
  | Raise x => invoked r' = invoked r ∧ world r' = world r ∧ arg r' = arg r ∧
               result r' = Raise x
  | Ok _ => invoked r' = handlers e ++ [h] ∧
            (world r', arg r') = (invoke h (arg r) (world r)).1 ∧
            result r' = match (invoke h (arg r) (world r)).2 with
                        | Ok _ => Ok (iadd e h)
                        | Raise x => Raise x
                        end
  end.
Proof.
  intros Hni. unfold Event_call. simpl.
  rewrite iadd_handlers, decide_False by done.
  destruct (result (for_handlers invoke (handlers e) a w)) as [[]|x] eqn:Hres.
  - rewrite (for_handlers_app invoke _ [h] a w Hres). simpl.
    by destruct (invoke h _ _) as [[w' a'] [[]|y]].
  - rewrite (for_handlers_app_raise invoke _ [h] a w x Hres). by rewrite Hres.
Qed.

Lemma X4_witness :
  invoked (Event_call plain_invoke
             (iadd (iadd Event_init (Printing "a")) (Printing "b")) "m" [])
  = [Printing "a"] ++ [Printing "b"].
Proof.
  assert (Printing "b" ∉ handlers (iadd Event_init (Printing "a"))) as Hni.
  { vm_compute. intros Hin. apply list_elem_of_singleton in Hin. discriminate. }
  exact (proj1 (X4_new_handler_runs_last plain_invoke
                  (iadd Event_init (Printing "a")) (Printing "b") "m" [] Hni)).
Defined.

(** ** The configuration *)

Lemma app_inj_str p a b : p +:+ a = p +:+ b → a = b.
Proof.
  induction p as [|c p IH]; [done|]. rewrite !app_cons. intros [= Heq]. by apply IH.
Qed.

Lemma fields_run sep run rest w :
  str_all (λ c, negb (bool_decide (c = sep))) run = true →
  fields sep (run +:+ rest) w = fields sep rest (w +:+ run).
Proof.
  revert w. induction run as [|c run IH]; intros w Hall.
  - by rewrite app_empty_r.
  - rewrite app_cons. cbn [fields str_all] in *. apply andb_prop in Hall as [Hc Hall].
    apply negb_true_iff, bool_decide_eq_false in Hc.
    rewrite decide_False, (IH _ Hall) by done. by rewrite app_assoc_str.
Qed.

(** The fields of a line [k:v], alone or followed by a further colon. *)
Lemma fields_key_value k v tail :
  str_all not_colon k = true → str_all not_colon v = true →
  tail = "" ∨ (∃ t, tail = ":" +:+ t) →
  ∃ more, str_split_on ":" (k +:+ ":" +:+ v +:+ tail) = k :: v :: more.
Proof.
  intros Hk Hv Htail. unfold str_split_on.
  rewrite (fields_run ":" k _ "" Hk).
  change ("" +:+ k) with k. change (":" +:+ v +:+ tail) with (String ":" (v +:+ tail)).
  cbn [fields]. rewrite decide_True by done.
  rewrite (fields_run ":" v _ "" Hv). change ("" +:+ v) with v.
  destruct Htail as [-> | [t ->]]; [by exists []|].
  change (":" +:+ t) with (String ":" t). cbn [fields].
  rewrite decide_True by done. by eexists.
Qed.

Lemma settings_cases key :
  key ∈ settings →
  key = "command_char" ∨ key = "channel" ∨ key = "file" ∨ key = "nick" ∨
  key = "password" ∨ key = "server".
Proof. unfold settings. rewrite !elem_of_cons, elem_of_nil. tauto. Qed.

(** Closes a goal [k ∉ settings] for a [k] that computes. *)
Ltac not_a_setting :=
  let H := fresh in
  intros H; apply settings_cases in H; vm_compute in H;
  repeat (destruct H as [H|H]; [discriminate H|]); discriminate H.

Lemma Config_setattr_inv c k v c' :
  Config_setattr c ("_Config__" +:+ k) v = Ok c' → k ∈ settings.
Proof.
  unfold Config_setattr. intros Hs.
  repeat case_decide; try discriminate;
    match goal with
    | Heq : _ +:+ k = ?name |- _ =>
        apply (app_inj_str "_Config__" k) in Heq; subst k; unfold settings; set_solver
    end.
Qed.

Lemma Config_set_get c k v c' key :
  k ∈ settings → key ∈ settings →
  Config_setattr c ("_Config__" +:+ k) v = Ok c' →
  get c' key = if decide (k = key) then v else get c key.
Proof.
  intros Hk Hkey.
  apply settings_cases in Hk as [->|[->|[->|[->|[->| ->]]]]];
  apply settings_cases in Hkey as [->|[->|[->|[->|[->| ->]]]]];
  intros [= <-]; reflexivity.
Qed.

Lemma Config_getattr_settings c key :
  key ∈ settings → is_Some (Config_getattr c ("_Config__" +:+ key)).
Proof.
  intros Hkey. apply settings_cases in Hkey as [->|[->|[->|[->|[->| ->]]]]]; by eexists.
Qed.

Lemma Config_getattr_None c k :
  k ∉ settings → k ≠ "get_config" → Config_getattr c ("_Config__" +:+ k) = None.
Proof.
  intros Hk Hm. unfold Config_getattr.
  repeat case_decide; try done;
    match goal with
    | Heq : _ +:+ k = ?name |- _ =>
        apply (app_inj_str "_Config__" k) in Heq; subst k
    end; try done.
  all: destruct Hk; unfold settings; set_solver.
Qed.

Lemma get_config_line_unfold c line :
  get_config_line c line =
  match Config_getattr c ("_Config__" +:+ setting_key line) with
  | Some _ =>
      match setting_value line with
      | Some v => Config_setattr c ("_Config__" +:+ setting_key line) (Some v)
      | None => Raise IndexError
      end
  | None => Ok c
  end.
Proof. reflexivity. Qed.

(** What one line of the file does to each setting. *)
Lemma get_config_line_get c line c' key :
  get_config_line c line = Ok c' → key ∈ settings →
  get c' key = if decide (setting_key line = key) then setting_value line
               else get c key.
Proof.
  rewrite get_config_line_unfold. intros Hline Hkey.
  destruct (Config_getattr c _) as [x|] eqn:Hattr.
  - destruct (setting_value line) as [v|]; [|done].
    pose proof (Config_setattr_inv _ _ _ _ Hline) as Hk.
    by rewrite (Config_set_get _ _ _ _ key Hk Hkey Hline).
  - injection Hline as <-. rewrite decide_False; [done|].
    intros Heq. rewrite Heq in Hattr.
    destruct (Config_getattr_settings c key Hkey) as [y Hy]. congruence.
Qed.

(** X5.  A line [key: value] of the file, for [key] one of the six
    settings, puts the value, stripped of surrounding blanks, under that
    setting and leaves the other settings as they were; whatever follows a
    second colon is dropped. *)
Theorem X5_setting_line_is_stored (c : Config) (k v tail key : string) :
  str_all not_colon k = true → str_all not_colon v = true →
  tail = "" ∨ (∃ t, tail = ":" +:+ t) →
  strip k = key → key ∈ settings →
  ∃ c', get_config_line c (k +:+ ":" +:+ v +:+ tail) = Ok c' ∧
        get c' key = Some (strip v) ∧
        ∀ key', key' ∈ settings → key' ≠ key → get c' key' = get c key'.
Proof.
  intros Hk Hv Htail Hkey Hin.
  destruct (fields_key_value k v tail Hk Hv Htail) as [more Hf].
  assert (setting_key (k +:+ ":" +:+ v +:+ tail) = key) as Hsk
    by (unfold setting_key; by rewrite Hf).
  assert (setting_value (k +:+ ":" +:+ v +:+ tail) = Some (strip v)) as Hsv
    by (unfold setting_value; by rewrite Hf).
  assert (∃ c', get_config_line c (k +:+ ":" +:+ v +:+ tail) = Ok c') as [c' Hc'].
  { rewrite get_config_line_unfold, Hsk, Hsv.
    destruct (Config_getattr_settings c key Hin) as [x ->].
    apply settings_cases in Hin as [->|[->|[->|[->|[->| ->]]]]]; by eexists. }
  exists c'. split_and!; [done|..].
  - rewrite (get_config_line_get _ _ _ key Hc' Hin), Hsk, Hsv. by rewrite decide_True.
  - intros key' Hin' Hne.
    rewrite (get_config_line_get _ _ _ key' Hc' Hin'), Hsk. by rewrite decide_False.
Qed.

Lemma X5_witness :
  ∃ c', get_config_line example_config ("server" +:+ ":" +:+ " irc.example.net" +:+ ":6697")
          = Ok c' ∧
        get c' "server" = Some "irc.example.net" ∧
        ∀ key', key' ∈ settings → key' ≠ "server" → get c' key' = get example_config key'.
Proof.
  refine (X5_setting_line_is_stored example_config "server" " irc.example.net" ":6697"
            "server" eq_refl eq_refl _ eq_refl _).
  - right. by exists "6697".
  - unfold settings. set_solver.
Defined.

(** X6.  A line whose key is none of the six settings (an empty line, a
    remark, a misspelt key) is passed over, the configuration unchanged
    and nothing raised, with one exception: the key [get_config].  It names
    the private method, which [hasattr] finds, so that the line raises
    [AttributeError] at the [setattr], or [IndexError] when it has no
    colon. *)
Theorem X6_unknown_line_is_ignored (c : Config) (line : string) :
  setting_key line ∉ settings →
  get_config_line c line =
  if decide (setting_key line = "get_config")
  then match setting_value line with
       | Some _ => Raise AttributeError
       | None => Raise IndexError
       end
  else Ok c.
Proof.
  intros Hk. rewrite get_config_line_unfold. case_decide as Hm.
  - rewrite Hm. by destruct (setting_value line).
  - by rewrite Config_getattr_None.
Qed.

Lemma X6_witness :
  get_config_line example_config "" = Ok example_config ∧
  get_config_line example_config "cchar: !" = Ok example_config ∧
  get_config_line example_config "get_config: x" = Raise AttributeError.
Proof.
  split_and!.
  - refine (X6_unknown_line_is_ignored example_config "" _). not_a_setting.
  - refine (X6_unknown_line_is_ignored example_config "cchar: !" _). not_a_setting.
  - refine (X6_unknown_line_is_ignored example_config "get_config: x" _). not_a_setting.
Defined.

(** X7.  A line that names a setting and has no colon stops the loading
    with an [IndexError], whatever the lines after it. *)
Theorem X7_setting_without_value_raises (c c1 : Config) (before after : list string)
    (line : string) :
  get_config_lines c before = Ok c1 →
  setting_key line ∈ settings → setting_value line = None →
  get_config_lines c (before ++ line :: after) = Raise IndexError.
Proof.
  revert c. induction before as [|l before IH]; intros c Hb Hk Hv; simpl in *.
  - injection Hb as ->. rewrite get_config_line_unfold, Hv.
    by destruct (Config_getattr_settings c1 _ Hk) as [x ->].
  - destruct (get_config_line c l) as [c'|]; [|done]. by apply IH.
Qed.

Lemma X7_witness :
  Config_init "irc.cfg" ["server: irc.freenode.net"; "nick"; "channel: #jaintp"]
  = Raise IndexError.
Proof.
  refine (X7_setting_without_value_raises _ _ ["server: irc.freenode.net"] ["channel: #jaintp"]
            "nick" eq_refl _ eq_refl).
  vm_compute. unfold settings. set_solver.
Defined.

Lemma last_cons_or {A} (x : A) l :
  last (x :: l) = match last l with Some y => Some y | None => Some x end.
Proof. destruct l as [|y l]; [done|]. rewrite last_cons_cons. by destruct (last (y :: l)) eqn:E; [|apply last_None in E]. Qed.

(** X8.  After a load that did not raise, each setting holds the stripped
    value of the last line that names it, and what it held before the load
    when no line names it. *)
Theorem X8_last_line_wins (c0 c : Config) (content : list string) (key : string) :
  get_config_lines c0 content = Ok c → key ∈ settings →
  get c key = match last_setting key content with
              | Some v => Some v
              | None => get c0 key
              end.
Proof.
  intros Hload Hkey. revert c0 Hload.
  induction content as [|line content IH]; intros c0 Hload; simpl in Hload.
  - by injection Hload as ->.
  - destruct (get_config_line c0 line) as [c1|] eqn:Hline; [|done].
    rewrite (IH c1 Hload). unfold last_setting. simpl.
    pose proof (get_config_line_get _ _ _ key Hline Hkey) as Hget.
    rewrite get_config_line_unfold in Hline.
    case_decide as Hk.
    + destruct (setting_value line) as [v|] eqn:Hv.
      * simpl. rewrite last_cons_or. by destruct (last _).
      * rewrite Hk in Hline.
        by destruct (Config_getattr_settings c0 _ Hkey) as [x Hx]; rewrite Hx in Hline.
    + by destruct (last _).
Qed.

Lemma X8_witness :
  ∃ c, Config_init "irc.cfg" ["nick: first"; "channel: #a"; "nick : second "] = Ok c ∧
       get c "nick" = Some "second".
Proof.
  eexists. split; [vm_compute; reflexivity|].
  refine (X8_last_line_wins (mkConfig None None (Some "irc.cfg") None None None) _
            (rstrip <$> ["nick: first"; "channel: #a"; "nick : second "]) "nick"
            eq_refl _).
  unfold settings. set_solver.
Defined.

(** X9.  The file that [write_basic_config] writes does not load back:
    [writelines] puts no line end between the five settings, so the file
    is a single line, and reading it sets the nick alone, to the text up to
    the second colon. *)
Theorem X9_basic_config_does_not_load_back (filename : string) :
  readlines write_basic_config = [write_basic_config] ∧
  Config_open filename write_basic_config =
    Ok (mkConfig None None (Some filename) (Some "jaintp_botserver") None None).
Proof. split; vm_compute; reflexivity. Qed.

(** ** The pattern *)

Lemma rep_inv_run {R : Type} p lo s (k : string → option R) x :
  rep p lo s k = Some x →
  ∃ run s', s = run +:+ s' ∧ str_all p run = true ∧
            lo ≤ String.length run ∧ k s' = Some x.
Proof.
  revert lo. induction s as [|c s IH]; intros lo; simpl.
  - case_decide; [|done]. intros Hk. exists "", "". split_and!; [done..|lia|done].
  - assert (Hhere : (if decide (lo = 0) then k (String c s) else None) = Some x →
                    ∃ run s', String c s = run +:+ s' ∧ str_all p run = true ∧
                              lo ≤ String.length run ∧ k s' = Some x).
    { case_decide; [|done]. intros Hk.
      exists "", (String c s). split_and!; [done..|simpl; lia|done]. }
    destruct (p c) eqn:Hc; [|done].
    destruct (rep p (pred lo) s k) eqn:Hr; [|done].
    intros [= <-]. destruct (IH _ Hr) as (run & s' & -> & Hall & Hlen & Hk).
    exists (String c run), s'. rewrite app_cons. simpl. rewrite Hc.
    split_and!; [done..|lia|done].
Qed.

Lemma rep_total {R : Type} p s (k : string → option R) :
  (∀ s', is_Some (k s')) → is_Some (rep p 0 s k).
Proof.
  intros Hk. induction s as [|c s IH]; simpl; [done|].
  destruct (p c); [|done]. by destruct IH as [r ->].
Qed.

(** With a rest of the pattern that never refuses, a repetition stops where
    its class stops. *)
Lemma rep_longest {R : Type} p s (k : string → option R) x :
  (∀ s', is_Some (k s')) → rep p 0 s k = Some x →
  ∃ run s', s = run +:+ s' ∧ str_all p run = true ∧ stops p s' ∧ k s' = Some x.
Proof.
  intros Hk. induction s as [|c s IH]; simpl.
  - intros Hx. by exists "", "".
  - destruct (p c) eqn:Hc.
    + destruct (rep_total p s k Hk) as [r Hr]. rewrite Hr. intros [= <-].
      destruct (IH Hr) as (run & s' & -> & Hall & Hstop & Hx).
      exists (String c run), s'. rewrite app_cons. simpl. by rewrite Hc.
    + intros Hx. by exists "", (String c s).
Qed.

Lemma rep_one {R : Type} p c s (k : string → option R) :
  rep p 1 (String c s) k = if p c then rep p 0 s k else None.
Proof. simpl. destruct (p c); [|done]. by destruct (rep p 0 s k). Qed.

Lemma re_run_chr_inv_run c s g k x :
  re_run (Chr c) s g k = Some x → ∃ s', s = String c s' ∧ k s' g = Some x.
Proof.
  destruct s as [|c' s]; simpl; [done|]. case_decide as Hc; [|done].
  subst c'. eauto.
Qed.

Lemma re_run_grp_inv_run p lo i s g k x :
  re_run (Grp i (Rep p lo)) s g k = Some x →
  ∃ run s', s = run +:+ s' ∧ str_all p run = true ∧ lo ≤ String.length run ∧
            k s' (<[pred i := Some run]> g) = Some x.
Proof.
  simpl. intros (run & s' & -> & Hall & Hlen & Hk)%rep_inv_run.
  rewrite consumed_app in Hk. eauto 10.
Qed.

Lemma run_word run :
  str_all non_space run = true → 1 ≤ String.length run → word run.
Proof. intros Hall Hlen. split; [|done]. destruct run; [simpl in Hlen; lia|done]. Qed.

Lemma re_run_rep_eq p lo s g k :
  re_run (Rep p lo) s g k = rep p lo s (λ s', k s' g).
Proof. reflexivity. Qed.

Lemma re_run_grp_eq p lo i s g k :
  re_run (Grp i (Rep p lo)) s g k =
  rep p lo s (λ s', k s' (<[pred i := Some (consumed s s')]> g)).
Proof. reflexivity. Qed.

Lemma re_run_opt_eq r s g k :
  re_run (Opt r) s g k =
  match re_run r s g k with Some x => Some x | None => k s g end.
Proof. reflexivity. Qed.

Lemma stops_dot_marker s : stops dot s → stops marker s.
Proof.
  destruct s as [|c s]; [done|]. simpl.
  intros Hc. apply negb_false_iff, bool_decide_eq_true in Hc. by subst c.
Qed.

(** The end of the pattern: the second optional group never matches, since
    the first one either takes everything up to the line feed or fails at a
    place where the second fails too. *)
Lemma pat_tail_groups s (g : groups) x :
  re_run (Opt (Cat (Rep marker 1) (Grp 5 (Rep dot 0))))
         s g (λ s' g', re_run (Opt (Cat (Rep marker 1) (Grp 6 (Rep dot 0))))
                              s' g' (λ _ g'', Some g'')) = Some x →
  x = g ∨ ∃ cap, str_all dot cap = true ∧ x = <[4 := Some cap]> g.
Proof.
  remember (λ (s' : string) (g' : groups),
              re_run (Opt (Cat (Rep marker 1) (Grp 6 (Rep dot 0))))
                     s' g' (λ _ g'', Some g'')) as k6 eqn:Ek6.
  assert (Htot : ∀ s' g', is_Some (k6 s' g')).
  { intros s' g'. subst k6. rewrite re_run_opt_eq. by destruct (re_run _ _ _ _). }
  assert (Hstop : ∀ s' g', stops marker s' → k6 s' g' = Some g').
  { intros s' g' Hs. subst k6. rewrite re_run_opt_skip; [done|].
    rewrite re_run_cat, re_run_rep_eq. by apply rep_stop. }
  clear Ek6. rewrite re_run_opt_eq, re_run_cat, re_run_rep_eq.
  destruct (rep marker 1 s _) as [y|] eqn:H5.
  - intros [= <-]. right.
    apply rep_inv_run in H5 as (m & s1 & -> & _ & _ & H5).
    rewrite re_run_grp_eq in H5.
    apply rep_longest in H5 as (cap & s2 & -> & Hcap & Hs2 & H5).
    2:{ intros s'. apply Htot. }
    rewrite consumed_app in H5. exists cap. split; [done|].
    rewrite Hstop in H5 by (by apply stops_dot_marker).
    by injection H5 as <-.
  - intros Hx. left. rewrite Hstop in Hx; [congruence|].
    destruct s as [|c s]; [done|]. simpl. rewrite rep_one in H5.
    destruct (marker c); [|done]. exfalso.
    match type of H5 with
    | rep _ _ _ ?K = None => destruct (rep_total marker s K) as [r Hr]
    end; [|congruence].
    intros s1. rewrite re_run_grp_eq. apply rep_total. intros s2. apply Htot.
Qed.

Lemma re_run_rep_inv_run p lo s g k x :
  re_run (Rep p lo) s g k = Some x →
  ∃ run s', s = run +:+ s' ∧ str_all p run = true ∧ lo ≤ String.length run ∧
            k s' g = Some x.
Proof. rewrite re_run_rep_eq. apply rep_inv_run. Qed.

Lemma blank_run run :
  str_all isspace run = true → 1 ≤ String.length run → run ≠ "".
Proof. intros _ Hlen ->. simpl in Hlen. lia. Qed.

(** Every match, read backwards: the line is made of the pieces the groups
    hold, in the order of the pattern. *)
Lemma pat_match_inv data g :
  pat_match data = Some g →
  ∃ n u a r o5 ws1 ws2 colon rest,
    g = [Some n; Some u; Some a; Some r; o5; None] ∧
    data = ":" +:+ n +:+ "!" +:+ u +:+ ws1 +:+ a +:+ ws2 +:+ colon +:+ r +:+ rest ∧
    n ≠ "" ∧ str_all not_bang n = true ∧
    word u ∧ word a ∧ word r ∧
    ws1 ≠ "" ∧ str_all isspace ws1 = true ∧
    ws2 ≠ "" ∧ str_all isspace ws2 = true ∧
    (colon = "" ∨ colon = ":") ∧
    (∀ cap, o5 = Some cap → str_all dot cap = true).
Proof.
  unfold pat_match, re_match, pat. intros Hm.
  rewrite re_run_cat in Hm. apply re_run_chr_inv_run in Hm as (s1 & -> & Hm).
  rewrite re_run_cat in Hm.
  apply re_run_grp_inv_run in Hm as (n & s2 & -> & Hn & Hnl & Hm).
  rewrite re_run_cat in Hm. apply re_run_chr_inv_run in Hm as (s3 & -> & Hm).
  rewrite re_run_cat in Hm.
  apply re_run_grp_inv_run in Hm as (u & s4 & -> & Hu & Hul & Hm).
  rewrite re_run_cat in Hm.
  apply re_run_rep_inv_run in Hm as (ws1 & s5 & -> & Hw1 & Hw1l & Hm).
  rewrite re_run_cat in Hm.
  apply re_run_grp_inv_run in Hm as (a & s6 & -> & Ha & Hal & Hm).
  rewrite re_run_cat in Hm.
  apply re_run_rep_inv_run in Hm as (ws2 & s7 & -> & Hw2 & Hw2l & Hm).
  rewrite re_run_cat in Hm.
  assert (∃ colon s8, s7 = colon +:+ s8 ∧ (colon = "" ∨ colon = ":") ∧
            re_run (Grp 4 (Rep non_space 1) ⋅ Rep isspace 0 ⋅
              Opt (Rep marker 1 ⋅ Grp 5 (Rep dot 0)) ⋅
              Opt (Rep marker 1 ⋅ Grp 6 (Rep dot 0)))%re s8
              (<[2 := Some a]> (<[1 := Some u]> (<[0 := Some n]> (replicate 6 None))))
              (λ _ g, Some g) = Some g) as (colon & s8 & -> & Hcolon & Hm').
  { apply re_run_opt_inv in Hm as [Hm|Hm].
    - apply re_run_chr_inv_run in Hm as (s8 & -> & Hm). exists ":", s8. eauto.
    - exists "", s7. eauto. }
  clear Hm. rename Hm' into Hm.
  rewrite re_run_cat in Hm.
  apply re_run_grp_inv_run in Hm as (r & s9 & -> & Hr & Hrl & Hm).
  rewrite re_run_cat in Hm.
  apply re_run_rep_inv_run in Hm as (ws3 & s10 & -> & _ & _ & Hm).
  rewrite re_run_cat in Hm. apply pat_tail_groups in Hm.
  assert (∃ o5, g = [Some n; Some u; Some a; Some r; o5; None] ∧
                ∀ cap, o5 = Some cap → str_all dot cap = true) as (o5 & -> & Ho5).
  { destruct Hm as [-> | (cap & Hcap & ->)].
    - exists None. by split.
    - exists (Some cap). split; [done|]. by intros ? [= <-]. }
  exists n, u, a, r, o5, ws1, ws2, colon, (ws3 +:+ s10).
  split_and!; try done.
  - destruct n; [simpl in Hnl; lia|done].
  - by apply run_word.
  - by apply run_word.
  - by apply run_word.
  - by apply blank_run.
  - by apply blank_run.
Qed.

Lemma rstrip_idem s : rstrip (rstrip s) = rstrip s.
Proof.
  induction s as [|c s IH]; [done|]. simpl.
  destruct (rstrip s) as [|d r] eqn:Hr.
  - destruct (isspace c) eqn:Hc; [done|]. simpl. by rewrite Hc.
  - change (rstrip (String c (String d r))) with
      (match rstrip (String d r) with
       | EmptyString => if isspace c then EmptyString else String c EmptyString
       | String e r' => String c (String e r')
       end).
    by rewrite IH.
Qed.

Lemma str_all_rstrip p s : str_all p s = true → str_all p (rstrip s) = true.
Proof.
  induction s as [|c s IH]; [done|]. simpl. intros [Hc Hs]%andb_prop.
  specialize (IH Hs). destruct (rstrip s) as [|d r].
  - destruct (isspace c); [done|]. simpl. by rewrite Hc.
  - simpl in *. by rewrite Hc.
Qed.

(** X10.  Of the six groups of the pattern the first four take part in
    every match and the sixth in none: no line gives the second optional
    group a value. *)
Theorem X10_sixth_group_never_matches (data : string) (g : groups) :
  pat_match data = Some g →
  ∃ n u a r o5, g = [Some n; Some u; Some a; Some r; o5; None].
Proof.
  intros Hm. destruct (pat_match_inv data g Hm)
    as (n & u & a & r & o5 & _ & _ & _ & _ & -> & _). eauto 10.
Qed.

Lemma X10_witness :
  ∃ n u a r o5,
    [Some "nick"; Some "user@host"; Some "KICK"; Some "#chan"; None; None]
    = [Some n; Some u; Some a; Some r; o5; None].
Proof.
  exact (X10_sixth_group_never_matches ":nick!user@host KICK #chan bob :too loud" _ eq_refl).
Defined.

(** X11.  A parsed line reads back: it is a colon, the nick (non-empty, no
    [!]), a [!], the user part, blanks, the command, blanks, the target,
    possibly after a colon, and a rest; user part, command and target are
    non-empty and free of blanks and are stored as they stand, the nick is
    stored with its final blanks cut, and the line itself is under [orig]. *)
Theorem X11_parsed_line_reads_back (data : string) (com : dict) :
  parse data = Some com →
  ∃ n u a r ws1 ws2 colon rest,
    data = ":" +:+ n +:+ "!" +:+ u +:+ ws1 +:+ a +:+ ws2 +:+ colon +:+ r +:+ rest ∧
    com !! "nick" = Some (DStr (rstrip n)) ∧
    com !! "user" = Some (DStr u) ∧
    com !! "action" = Some (DStr a) ∧
    com !! "recipient" = Some (DStr r) ∧
    com !! "orig" = Some (DStr data) ∧
    n ≠ "" ∧ str_all not_bang n = true ∧ word u ∧ word a ∧ word r ∧
    ws1 ≠ "" ∧ str_all isspace ws1 = true ∧
    ws2 ≠ "" ∧ str_all isspace ws2 = true ∧
    (colon = "" ∨ colon = ":").
Proof.
  unfold parse. destruct (pat_match data) as [g|] eqn:Hg; [|done]. intros [= <-].
  destruct (pat_match_inv data g Hg)
    as (n & u & a & r & o5 & ws1 & ws2 & colon & rest & -> & Hd & Hn & Hnb & Hu & Ha
        & Hr & ? & ? & ? & ? & ? & _).
  exists n, u, a, r, ws1, ws2, colon, rest.
  assert (∀ w, word w → rstrip w = w) as Hw
    by (intros w [_ Hall]; by apply rstrip_no_space).
  split_and!; try done.
  all: unfold make_com; destruct o5; simpl;
    rewrite ?(Hw u Hu), ?(Hw a Ha), ?(Hw r Hr); reflexivity.
Qed.

Lemma X11_witness :
  ∃ n u a r ws1 ws2 colon rest,
    ":op!user@host KICK #jaintp jaintp_bot :bye"
      = ":" +:+ n +:+ "!" +:+ u +:+ ws1 +:+ a +:+ ws2 +:+ colon +:+ r +:+ rest ∧
    word u ∧ word a ∧ word r.
Proof.
  destruct (X11_parsed_line_reads_back ":op!user@host KICK #jaintp jaintp_bot :bye"
              (make_com [Some "op"; Some "user@host"; Some "KICK"; Some "#jaintp";
                         None; None] ":op!user@host KICK #jaintp jaintp_bot :bye"))
    as (n & u & a & r & ws1 & ws2 & colon & rest & Hd & _ & _ & _ & _ & _ & _ & _
        & Hu & Ha & Hr & _).
  - apply parse_groups. vm_compute. reflexivity.
  - exists n, u, a, r, ws1, ws2, colon, rest. by split_and!.
Defined.

(** X12.  The message of a parsed line, when there is one, is a [str] with
    no line feed in it and no blank at its end; there is one exactly when
    the fifth group matched. *)
Theorem X12_message_is_stripped (data : string) (com : dict) :
  parse data = Some com →
  ∃ g, pat_match data = Some g ∧
       match com !! "message" with
       | Some v => ∃ m cap, v = DStr m ∧ m = rstrip cap ∧ g !! 4 = Some (Some cap) ∧
                            rstrip m = m ∧ str_all dot m = true
       | None => g !! 4 = Some None
       end.
Proof.
  unfold parse. destruct (pat_match data) as [g|] eqn:Hg; [|done]. intros [= <-].
  exists g. split; [done|].
  destruct (pat_match_inv data g Hg)
    as (n & u & a & r & o5 & _ & _ & _ & _ & -> & _ & _ & _ & _ & _ & _ & _ & _ & _
        & _ & _ & Ho5).
  unfold make_com. destruct o5 as [cap|]; simpl.
  - replace (_ !! "message") with (Some (DStr (rstrip cap))) by reflexivity.
    exists (rstrip cap), cap. split_and!; try done.
    + apply rstrip_idem.
    + apply str_all_rstrip. by apply Ho5.
  - by replace (_ !! "message") with (@None dval) by reflexivity.
Qed.

Lemma X12_witness :
  ∃ m cap, DStr "hello" = DStr m ∧ m = rstrip cap ∧ rstrip m = m.
Proof.
  pose proof (X12_message_is_stripped
                (":n!u@h PRIVMSG #c :hello  " +:+ CRLF)
                (make_com [Some "n"; Some "u@h"; Some "PRIVMSG"; Some "#c";
                           Some ("hello  " +:+ String "013" ""); None]
                          (":n!u@h PRIVMSG #c :hello  " +:+ CRLF))) as Hx.
  destruct Hx as (g & _ & Hx).
  - apply parse_groups. vm_compute. reflexivity.
  - replace (make_com _ _ !! "message") with (Some (DStr "hello")) in Hx by reflexivity.
    destruct Hx as (m & cap & Hv & Hm & _ & Hs & _).
    exists m, cap. by split_and!.
Defined.

(** ** The colourer and the console *)

Lemma replace_from_plain c new s :
  str_all not_percent s = true →
  replace_from (String "%" (String c "")) new s 0 = s.
Proof.
  induction s as [|a s IH]; [done|]. cbn [str_all replace_from startswith].
  intros [Ha Hs]%andb_prop. apply negb_true_iff, bool_decide_eq_false in Ha.
  rewrite decide_False by congruence. by rewrite IH.
Qed.

(** A text with no [%] in it, and not starting with the letter of the code,
    can be set aside while the code is replaced in what precedes it. *)
Lemma replace_from_app c new s t skip :
  str_all not_percent t = true → stops (λ a, bool_decide (a = c)) t →
  skip ≤ String.length s →
  replace_from (String "%" (String c "")) new (s +:+ t) skip =
  replace_from (String "%" (String c "")) new s skip +:+ t.
Proof.
  intros Ht Hstop. revert skip. induction s as [|a s IH]; intros skip Hskip.
  - simpl in Hskip. assert (skip = 0) as -> by lia.
    change ("" +:+ t) with t. by rewrite replace_from_plain.
  - rewrite app_cons. cbn [replace_from]. destruct skip as [|n].
    + assert (startswith (String a (s +:+ t)) (String "%" (String c ""))
              = startswith (String a s) (String "%" (String c ""))) as ->.
      { cbn [startswith]. case_decide; [|done].
        destruct s as [|b s]; [|by rewrite app_cons].
        change ("" +:+ t) with t. destruct t as [|b t]; [done|].
        simpl in Hstop. cbn [startswith]. apply bool_decide_eq_false in Hstop.
        by rewrite decide_False. }
      destruct (startswith (String a s) _) eqn:Hst.
      * rewrite IH; [by rewrite app_assoc_str|].
        cbn [startswith] in Hst. case_decide; [|done].
        destruct s; [done|simpl; lia].
      * rewrite IH by lia. by rewrite app_cons.
    + simpl in Hskip. rewrite IH by lia. done.
Qed.

Lemma resets_plain n : str_all not_percent (resets n) = true.
Proof.
  induction n as [|n IH]; [done|]. simpl. rewrite str_all_app, IH.
  reflexivity.
Qed.

Lemma resets_stops c n : c ≠ "027"%char → stops (λ a, bool_decide (a = c)) (resets n).
Proof.
  intros Hc. induction n as [|n IH]; [done|]. simpl.
  destruct (resets n) as [|b r] eqn:Hr.
  - simpl. apply bool_decide_eq_false. congruence.
  - by rewrite app_cons.
Qed.

Lemma format_step_resets text n entry :
  entry ∈ colours →
  format_step false (text +:+ resets n) entry =
  str_replace (String "%" (String entry.1 "")) (base_format entry.2) text
    +:+ resets (S n).
Proof.
  intros Hin. unfold format_step, str_replace.
  rewrite replace_from_app; [by rewrite app_assoc_str| | |lia].
  - apply resets_plain.
  - apply resets_stops. unfold colours in Hin.
    repeat (apply elem_of_cons in Hin as [->|Hin]; [discriminate|]).
    by apply elem_of_nil in Hin.
Qed.

Lemma format_resets l text n :
  (∀ entry, entry ∈ l → entry ∈ colours) →
  foldl (format_step false) (text +:+ resets n) l =
  foldl (λ t entry, str_replace (String "%" (String entry.1 "")) (base_format entry.2) t)
        text l +:+ resets (n + length l).
Proof.
  revert text n. induction l as [|entry l IH]; intros text n Hl; cbn [foldl length].
  - by rewrite Nat.add_0_r.
  - rewrite format_step_resets by (apply Hl; by left).
    rewrite IH by (intros e He; apply Hl; by right).
    by replace (S n + length l) with (n + S (length l)) by lia.
Qed.

Lemma str_replace_plain c new s :
  str_all not_percent s = true → str_replace (String "%" (String c "")) new s = s.
Proof. apply replace_from_plain. Qed.

Lemma foldl_replace_plain {E} (f : E → ascii) (nw : E → string) l s :
  str_all not_percent s = true →
  foldl (λ t e, str_replace (String "%" (String (f e) "")) (nw e) t) s l = s.
Proof.
  intros Hs. induction l as [|e l IH]; [done|]. cbn [foldl].
  by rewrite str_replace_plain.
Qed.

(** X13.  Away from Windows [_format] gives the text with the colour codes
    replaced, followed by eight reset sequences, one for each entry of the
    table (the reset is appended inside the loop).  A text without [%] comes
    back unchanged but for that tail, and on Windows unchanged altogether. *)
Theorem X13_format_appends_a_reset_per_colour (text : string) :
  CC_format false text = colourise text +:+ resets 8 ∧
  (str_all not_percent text = true →
   CC_format false text = text +:+ resets 8 ∧ CC_format true text = text).
Proof.
  split.
  - unfold CC_format, colourise.
    rewrite <- (app_empty_r text) at 1. change "" with (resets 0) at 1.
    by rewrite format_resets.
  - intros Hp. split.
    + unfold CC_format. rewrite <- (app_empty_r text) at 1.
      change "" with (resets 0) at 1. rewrite format_resets by done.
      by rewrite (foldl_replace_plain fst (λ e, base_format e.2)).
    + by apply (foldl_replace_plain fst (λ _, "") colours).
Qed.

Lemma X13_witness :
  CC_format false "Identifying" = "Identifying" +:+ resets 8 ∧
  CC_format true "Identifying" = "Identifying".
Proof.
  exact (proj2 (X13_format_appends_a_reset_per_colour "Identifying") eq_refl).
Defined.

Lemma fields_plain sep s w :
  str_all (λ c, negb (bool_decide (c = sep))) w = true →
  Forall (λ item, str_all (λ c, negb (bool_decide (c = sep))) item = true)
         (fields sep s w).
Proof.
  revert w. induction s as [|c s IH]; intros w Hw; cbn [fields].
  - by apply Forall_singleton.
  - case_decide as Hc.
    + apply Forall_cons. split; [done|]. by apply IH.
    + apply IH. rewrite str_all_app, Hw. simpl.
      by rewrite bool_decide_eq_false_2.
Qed.

Lemma str_in_chr_all c s :
  str_in (String c "") s = false → str_all (λ a, negb (bool_decide (a = c))) s = true.
Proof.
  induction s as [|a s IH]; [done|]. simpl.
  intros [Ha Hs]%orb_false_elim. rewrite (IH Hs), andb_true_r.
  apply negb_true_iff, bool_decide_eq_false. intros ->.
  by rewrite decide_True in Ha.
Qed.

(** X14.  [debug_out] touches nothing but the console, and nothing at all
    when debugging is off; what it prints are the lines of the text, none
    of them empty and none with a line feed in it. *)
Theorem X14_debug_out_prints_nonempty_lines (text : string) (self : Bot) :
  (debug_out text self).1 =
    (if debug self then set_stdout (stdout self ++ console_lines text) self else self) ∧
  (debug_out text self).2 = Ok tt ∧
  Forall (λ item, item ≠ "" ∧ str_all dot item = true) (console_lines text).
Proof.
  split_and!; [done..|].
  unfold console_lines. apply Forall_forall. intros item Hin.
  apply list_elem_of_filter in Hin as [Hne Hin]. split; [done|].
  destruct (str_in LF text) eqn:Hlf.
  - pose proof (fields_plain "010" text "" eq_refl) as Hall.
    rewrite Forall_forall in Hall. by apply Hall.
  - apply list_elem_of_singleton in Hin as ->. by apply str_in_chr_all.
Qed.

(** ** The session *)

(** What every [send] does: one record more in the log of the socket,
    carrying the line, and a normal return; the rest of the bot but the
    console stays. *)
Lemma send_effect string self :
  (send string self).2 = Ok tt ∧
  core (send string self).1 = core self ∧
  sock_log (soc (send string self).1) =
    sock_log (soc self) ++ [attempt (soc self) (string +:+ CRLF)] ∧
  payload_of (attempt (soc self) (string +:+ CRLF)) = Some (string +:+ CRLF).
Proof.
  rewrite send_spec. unfold attempt, debug_out, modify.
  destruct self as [cfg conn dbg nk ow pl srv sk e1 e2 e3 e4 e5 e6 out cl]; simpl.
  destruct (next_fault sk) as [err|]; simpl; [destruct dbg|]; done.
Qed.

Lemma core_debug_out text self : core (debug_out text self).1 = core self.
Proof. rewrite debug_out_frame. by destruct self. Qed.

Lemma soc_debug_out text self : soc (debug_out text self).1 = soc self.
Proof. rewrite debug_out_frame. by destruct self. Qed.

Lemma iadd_present {H : Type} `{EqDecision H} (e : Event H) h :
  h ∈ handlers e → iadd e h = e.
Proof. intros Hin. unfold iadd. by rewrite decide_True. Qed.

Lemma iadd_keeps {H : Type} `{EqDecision H} (e : Event H) h h' :
  h ∈ handlers e → h ∈ handlers (iadd e h').
Proof. intros Hin. rewrite iadd_handlers. case_decide; set_solver. Qed.

(** X15.  [init_events] may be run again without effect: the second run
    leaves every event as the first made it.  It keeps the handlers that
    were subscribed before, in their order, and never raises. *)
Theorem X15_init_events_idempotent (self : Bot) :
  (init_events self).2 = Ok tt ∧
  init_events (init_events self).1 = init_events self ∧
  Forall2 (λ before after, handlers before `prefix_of` handlers after)
          (events self) (events (init_events self).1).
Proof.
  destruct self as [cfg conn dbg nk ow pl srv sk e1 e2 e3 e4 e5 e6 out cl].
  unfold init_events, mbind, St_bind, modify, events. simpl. split_and!.
  - done.
  - rewrite (iadd_present (iadd (iadd e1 OnCommand) OnPrivmsg) OnCommand)
      by apply iadd_keeps, iadd_elem.
    rewrite (iadd_present (iadd e3 OnKick) OnKick) by apply iadd_elem.
    rewrite (iadd_present (iadd e4 OnMode) OnMode) by apply iadd_elem.
    by rewrite (iadd_present (iadd (iadd e1 OnCommand) OnPrivmsg) OnPrivmsg)
      by apply iadd_elem.
  - assert (∀ (e : Event handler) h, handlers e `prefix_of` handlers (iadd e h)) as Hp.
    { intros e h. rewrite iadd_handlers. case_decide; [done|]. by apply prefix_app_r. }
    repeat (apply Forall2_cons; split); try done; try apply Hp.
    etrans; apply Hp.
Qed.

Lemma St_bind_ok {S A B} (m : St S A) (f : A → St S B) s s' a :
  m s = (s', Ok a) → (m ≫= f) s = f a s'.
Proof. intros Hm. unfold mbind, St_bind. by rewrite Hm. Qed.

Lemma St_bind_raise {S A B} (m : St S A) (f : A → St S B) s s' e :
  m s = (s', Raise e) → (m ≫= f) s = (s', Raise e).
Proof. intros Hm. unfold mbind, St_bind. by rewrite Hm. Qed.

Lemma send_eq string self : send string self = ((send string self).1, Ok tt).
Proof.
  destruct (send_effect string self) as (Hr & _).
  destruct (send string self) as [b r]. simpl in *. by subst r.
Qed.

Lemma debug_out_eqn string self :
  debug_out string self = ((debug_out string self).1, Ok tt).
Proof. unfold debug_out, modify. simpl. by destruct self as [? ? []]. Qed.

(** The steps of [connect] once the socket is connected. *)
Lemma connect_spec self :
  connect self =
  match next_fault (soc self) with
  | Some err =>
      (set_soc (mkSocket (sock_closed (soc self)) (answered (soc self))
                         (sock_log (soc self))) self, Raise (OSError err))
  | None =>
      let b0 := set_soc (mkSocket (sock_closed (soc self)) (answered (soc self))
                           (sock_log (soc self) ++ [Connected (as_tuple (server self))]))
                        self in
      let b1 := (send_action "NICK" (nick self) b0).1 in
      let b2 := (send_action "USER" (Some (py_str (nick self) +:+
                   " PyBot PyBot :JaINTP's Python IRC bot.")) b1).1 in
      let b3 := (debug_out "%oIdentifying%g..." b2).1 in
      let b4 := (send_msg "Nickserv"
                   ("identify " +:+ py_str (get (config self) "password")) b3).1 in
      (set_connected true b4, Ok tt)
  end.
Proof.
  unfold connect. destruct (next_fault (soc self)) as [err|] eqn:Hf.
  - erewrite St_bind_raise; [reflexivity|]. unfold soc_connect. by rewrite Hf.
  - cbv zeta.
    set (b0 := set_soc _ self).
    set (b1 := (send_action "NICK" _ b0).1).
    set (b2 := (send_action "USER" _ b1).1).
    set (b3 := (debug_out _ b2).1).
    set (b4 := (send_msg _ _ b3).1).
    assert (config b3 = config self) as Hcfg.
    { pose proof (core_debug_out "%oIdentifying%g..." b2) as Hc3.
      destruct (send_effect ("USER" +:+ " " +:+ py_str (Some (py_str (nick self) +:+
                   " PyBot PyBot :JaINTP's Python IRC bot."))) b1) as (_ & Hc2 & _).
      destruct (send_effect ("NICK" +:+ " " +:+ py_str (nick self)) b0) as (_ & Hc1 & _).
      assert (core b3 = core self) as Hc.
      { etrans; [exact Hc3|]. etrans; [exact Hc2|]. etrans; [exact Hc1|]. by destruct self. }
      clearbody b3. unfold core in Hc. congruence. }
    rewrite (St_bind_ok _ _ self b0 tt) by (unfold soc_connect; by rewrite Hf).
    rewrite (St_bind_ok (gets nick) _ b0 b0 (nick self)) by done.
    rewrite (St_bind_ok (send_action "NICK" (nick self)) _ b0 b1 tt (send_eq _ b0)).
    rewrite (St_bind_ok (send_action "USER" _) _ b1 b2 tt (send_eq _ b1)).
    rewrite (St_bind_ok (debug_out _) _ b2 b3 tt (debug_out_eqn _ b2)).
    rewrite (St_bind_ok (gets _) _ b3 b3 (get (config self) "password"))
      by (unfold gets; by rewrite Hcfg).
    rewrite (St_bind_ok (send_msg _ _) _ b3 b4 tt (send_eq _ b3)).
    reflexivity.
Qed.

(** ** The session *)

Lemma written_app before after evs :
  sock_log (soc after) = sock_log (soc before) ++ evs → written before after = evs.
Proof. intros Hl. unfold written. by rewrite Hl, drop_app_length. Qed.

Lemma send_action_effect action argument_string self :
  core (send_action action argument_string self).1 = core self ∧
  ∃ ev, sock_log (soc (send_action action argument_string self).1) =
          sock_log (soc self) ++ [ev] ∧
        payload_of ev = Some ((action +:+ " " +:+ py_str argument_string) +:+ CRLF).
Proof.
  unfold send_action.
  destruct (send_effect (action +:+ " " +:+ py_str argument_string) self)
    as (_ & Hc & Hl & Hp).
  split; [done|]. by eexists.
Qed.

(** What [connect] does on a socket that accepts the connection. *)
Lemma connect_effect (self : Bot) :
  next_fault (soc self) = None →
  (connect self).2 = Ok tt ∧
  connected (connect self).1 = true ∧
  (config (connect self).1, nick (connect self).1, events (connect self).1,
   calls (connect self).1) = (config self, nick self, events self, calls self) ∧
  ∃ evs, sock_log (soc (connect self).1) =
           sock_log (soc self) ++ Connected (as_tuple (server self)) :: evs ∧
         payload_of <$> evs =
           Some <$> registration (nick self) (get (config self) "password").
Proof.
  intros Hf. rewrite connect_spec, Hf. cbv zeta.
  set (b0 := set_soc _ self).
  set (b1 := (send_action "NICK" _ b0).1).
  set (b2 := (send_action "USER" _ b1).1).
  set (b3 := (debug_out _ b2).1).
  set (b4 := (send_msg _ _ b3).1).
  assert (core b0 = core self) as Hc0 by (by destruct self).
  assert (sock_log (soc b0) =
          sock_log (soc self) ++ [Connected (as_tuple (server self))]) as Hl0
    by (by destruct self).
  destruct (send_action_effect "NICK" (nick self) b0) as (Hc1 & ev1 & Hl1 & Hp1).
  fold b1 in Hc1, Hl1.
  destruct (send_action_effect "USER"
              (Some (py_str (nick self) +:+ " PyBot PyBot :JaINTP's Python IRC bot.")) b1)
    as (Hc2 & ev2 & Hl2 & Hp2).
  fold b2 in Hc2, Hl2.
  pose proof (core_debug_out "%oIdentifying%g..." b2) as Hc3.
  pose proof (soc_debug_out "%oIdentifying%g..." b2) as Hl3.
  fold b3 in Hc3, Hl3.
  destruct (send_action_effect "PRIVMSG"
              (Some ("Nickserv" +:+ " :" +:+ "identify " +:+
                     py_str (get (config self) "password"))) b3)
    as (Hc4 & ev3 & Hl4 & Hp4).
  change (send_action "PRIVMSG" _ b3).1 with b4 in Hc4, Hl4.
  clearbody b0 b1 b2 b3 b4.
  assert (core b4 = core self) as Hc by congruence.
  assert (sock_log (soc b4) =
          sock_log (soc self) ++ Connected (as_tuple (server self)) :: [ev1; ev2; ev3]) as Hl.
  { rewrite Hl4, Hl3, Hl2, Hl1, Hl0, <- !app_assoc. reflexivity. }
  split_and!; [done|by destruct b4| |].
  - unfold core in Hc. destruct b4, self. simpl in *. by simplify_eq.
  - exists [ev1; ev2; ev3]. split.
    + by destruct b4.
    + simpl. rewrite Hp1, Hp2, Hp4. reflexivity.
Qed.






(** ** The handlers *)

(** X18.  [on_kick] on a message whose line has the bot's nick as its
    fourth word rejoins: it writes one JOIN line for the third word of the
    line, nothing else, and returns. *)
Theorem X18_kick_of_the_bot_rejoins (self : Bot) (data : dict)
    (s chan victim : string) :
  data !! "orig" = Some (DStr s) →
  str_split s !! 2 = Some chan →
  str_split s !! 3 = Some victim →
  nick self = Some victim →
  (on_kick (self, data)).2 = Ok tt ∧
  (on_kick (self, data)).1.2 = data ∧
  core (on_kick (self, data)).1.1 = core self ∧
  written self (on_kick (self, data)).1.1 =
    [attempt (soc self) (("JOIN " +:+ chan) +:+ CRLF)].
Proof.
  intros Ho H2 H3 Hn.
  assert (on_kick (self, data) = on_bot (join (Some chan)) (self, data)) as ->.
  { unfold on_kick, mbind, St_bind, gets, getitem. cbn [fst snd].
    rewrite Ho. cbn [mret St_ret fst snd]. rewrite H3, H2, Hn.
    by rewrite bool_decide_eq_true_2. }
  unfold on_bot, join, send_action.
  destruct (send_effect ("JOIN" +:+ " " +:+ py_str (Some chan)) self)
    as (Hr & Hc & Hl & _).
  destruct (send _ self) as [b r]. simpl in *.
  split_and!; [done|done|done|]. by apply written_app.
Qed.

Lemma X18_witness :
  let data : dict := <["orig" := DStr ":op!user@host KICK #jaintp jaintp_bot :bye"]> ∅ in
  written fresh_bot (on_kick (fresh_bot, data)).1.1 = [Sent ("JOIN #jaintp" +:+ CRLF)].
Proof.
  intros data.
  exact (proj2 (proj2 (proj2
    (X18_kick_of_the_bot_rejoins fresh_bot data
       ":op!user@host KICK #jaintp jaintp_bot :bye" "#jaintp" "jaintp_bot"
       eq_refl eq_refl eq_refl eq_refl)))).
Defined.

(** X19.  [on_kick] on any other line leaves the bot and the message as
    they were: when the fourth word is not the bot's nick it returns, and
    when the line has fewer than four words it raises [IndexError]. *)
Theorem X19_kick_of_another_is_ignored (self : Bot) (data : dict) (s : string) :
  data !! "orig" = Some (DStr s) →
  str_split s !! 3 = None ∨ str_split s !! 3 ≠ nick self →
  (on_kick (self, data)).1 = (self, data) ∧
  (on_kick (self, data)).2 =
    match str_split s !! 3 with
    | Some _ => Ok tt
    | None => Raise IndexError
    end.
Proof.
  intros Ho Hv.
  unfold on_kick, mbind, St_bind, gets, getitem. cbn [fst snd].
  rewrite Ho. cbn [mret St_ret fst snd].
  destruct (str_split s !! 3) as [victim|]; [|done].
  rewrite bool_decide_eq_false_2; [done|]. by destruct Hv.
Qed.

Lemma X19_witness :
  let data : dict := <["orig" := DStr ":op!user@host KICK #jaintp bob :bye"]> ∅ in
  (on_kick (fresh_bot, data)).1 = (fresh_bot, data) ∧
  (on_kick (fresh_bot, data)).2 = Ok tt.
Proof.
  intros data.
  refine (X19_kick_of_another_is_ignored fresh_bot data
            ":op!user@host KICK #jaintp bob :bye" eq_refl _).
  right. vm_compute. congruence.
Defined.

(** X20.  [on_command] handed a message whose text is still a [str], as
    [handle_msg] builds it, never ends the session: it compares the first
    character of the text with [die], so it writes nothing to the socket
    and does not exit, whoever the sender is. *)
Theorem X20_command_on_text_never_quits (self : Bot) (data : dict) (s : string) :
  data !! "message" = Some (DStr s) →
  soc (on_command (self, data)).1.1 = soc self ∧
  core (on_command (self, data)).1.1 = core self ∧
  (on_command (self, data)).1.2 = data ∧
  ∀ code, (on_command (self, data)).2 ≠ Raise (SystemExit code).
Proof.
  intros Hm. unfold on_command.
  rewrite (St_bind_ok (gets snd) _ (self, data) (self, data) data eq_refl).
  destruct s as [|c s].
  { rewrite (St_bind_raise _ _ (self, data) (self, data) IndexError); [done|].
    unfold getitem. by rewrite Hm. }
  rewrite (St_bind_ok _ _ (self, data) (self, data) (String c ""))
    by (unfold getitem; by rewrite Hm).
  set (b := (debug_out ("%oHandling command%g: %o" +:+ String c "") self).1).
  assert (soc b = soc self ∧ core b = core self) as [Hs Hc]
    by (split; [apply soc_debug_out|apply core_debug_out]).
  rewrite (St_bind_ok (on_bot _) _ (self, data) (b, data) tt)
    by (unfold on_bot; by rewrite debug_out_eqn).
  clearbody b.
  destruct (data !! "nick") as [sender|] eqn:Hn.
  2: { rewrite (St_bind_raise _ _ (b, data) (b, data) (KeyError "nick")); [done|].
       unfold getitem. by rewrite Hn. }
  rewrite (St_bind_ok (getitem data "nick") _ (b, data) (b, data) sender)
    by (unfold getitem; by rewrite Hn).
  rewrite (St_bind_ok (gets fst) _ (b, data) (b, data) b eq_refl).
  destruct (existsb (dval_is sender) (owners b)); [|done].
  rewrite (St_bind_ok _ _ (b, data) (b, data) (String c ""))
    by (unfold getitem; by rewrite Hm).
  rewrite bool_decide_eq_false_2; [done|]. by intros [=].
Qed.

Lemma X20_witness :
  let data : dict := <["message" := DStr "die"]> (<["nick" := DStr "JaINTP"]> ∅) in
  soc (on_command (fresh_bot, data)).1.1 = soc fresh_bot ∧
  core (on_command (fresh_bot, data)).1.1 = core fresh_bot.
Proof.
  intros data.
  destruct (X20_command_on_text_never_quits fresh_bot data "die" eq_refl)
    as (Hs & Hc & _).
  by split.
Defined.

(** X21.  No handler of the bot subscribes or unsubscribes: publishing any
    message on any event, at any depth of calls, leaves the six events of
    the bot as they were, whether the publish returns or raises. *)
Theorem X21_publish_keeps_events (fuel : nat) (ev : Event handler) (com : dict)
    (self : Bot) :
  events (publish fuel ev com self).1 = events self.
Proof.
  unfold publish, Event_call. cbn [fst world].
  generalize (handlers ev). intros hs. revert com self.
  induction hs as [|h hs IH]; intros com self; [done|].
  cbn [for_handlers].
  pose proof (run_handler_keeps_events fuel h com self) as Hk.
  destruct (run_handler fuel h com self) as [[w a] [[]|e]]; cbn [fst world] in *.
  - by rewrite IH.
  - done.
Qed.

(** ** The read loop *)

Lemma words_nonempty s w : w ≠ "" → words s w ≠ [].
Proof.
  revert w. induction s as [|c s IH]; intros w Hw; simpl.
  - by rewrite decide_False.
  - destruct (isspace c).
    + by rewrite decide_False.
    + apply IH. by destruct w.
Qed.

(** A keep-alive line has a last word. *)
Lemma ping_has_token data :
  startswith data "PING" = true → is_Some (last (str_split data)).
Proof.
  intros Hp. destruct data as [|c data]; [done|].
  simpl in Hp. case_decide as Hc; [subst c|done].
  unfold str_split. simpl.
  destruct (last (words data ("" +:+ "P"))) eqn:Hl; [done|].
  apply last_None in Hl. by apply words_nonempty in Hl.
Qed.

Lemma sends_ret cfg : sends cfg [] (mret tt).
Proof. intros self _. split_and!; [done..|]. exists []. by rewrite app_nil_r. Qed.

Lemma sends_send cfg string : sends cfg [string +:+ CRLF] (send string).
Proof.
  intros self _. destruct (send_effect string self) as (Hr & Hc & Hl & Hp).
  split_and!; [done..|]. eexists. split; [done|]. simpl. by rewrite Hp.
Qed.

Lemma sends_debug_out cfg text : sends cfg [] (debug_out text).
Proof.
  intros self _. split_and!; [done|apply core_debug_out|].
  exists []. by rewrite soc_debug_out, app_nil_r.
Qed.

Lemma sends_handle_msg cfg fuel data : sends cfg [] (handle_msg fuel data).
Proof.
  intros self Hc. rewrite handle_msg_no_dispatch.
  destruct (parse data); [by apply (sends_debug_out cfg)|by apply (sends_ret cfg)].
Qed.

Lemma sends_bind cfg l1 l2 (m : M unit) (k : M unit) :
  sends cfg l1 m → sends cfg l2 k → sends cfg (l1 ++ l2) (m ≫= λ _, k).
Proof.
  intros Hm Hk self Hcfg.
  destruct (Hm self Hcfg) as (Hr & Hc & evs1 & Hl1 & Hp1).
  unfold mbind, St_bind. destruct (m self) as [b r]. simpl in Hr, Hc, Hl1. subst r.
  assert (config b = cfg) as Hcfg' by (unfold core in Hc; congruence).
  destruct (Hk b Hcfg') as (Hr2 & Hc2 & evs2 & Hl2 & Hp2).
  split_and!; [done|congruence|].
  exists (evs1 ++ evs2). split.
  - by rewrite Hl2, Hl1, <- app_assoc.
  - by rewrite !fmap_app, Hp1, Hp2.
Qed.

Lemma sends_join_channel cfg :
  sends cfg [("JOIN " +:+ py_str (get cfg "channel")) +:+ CRLF]
        (gets (λ self, get (config self) "channel") ≫= join).
Proof.
  intros self Hcfg.
  rewrite (St_bind_ok _ _ self self (get cfg "channel")) by (unfold gets; by rewrite Hcfg).
  by apply (sends_send cfg ("JOIN" +:+ " " +:+ py_str (get cfg "channel"))).
Qed.

(** One turn of the read loop. *)
Lemma mainloop_body_sends cfg fuel data :
  sends cfg (turn_lines (get cfg "channel") data) (mainloop_body fuel data).
Proof.
  unfold mainloop_body, turn_lines. apply sends_bind.
  - destruct (startswith data "PING") eqn:Hp.
    + destruct (ping_has_token data Hp) as [token Ht]. rewrite Ht.
      apply (sends_bind cfg [_] []); [|apply sends_debug_out].
      apply (sends_send cfg ("PONG" +:+ " " +:+ py_str (Some token))).
    + apply (sends_bind cfg [] []); [apply sends_handle_msg|apply sends_debug_out].
  - destruct (str_in "End of /MOTD" data); [|apply sends_ret].
    apply (sends_bind cfg [] [_]); [apply sends_debug_out|apply sends_join_channel].
Qed.

Lemma send_open string self :
  sock_closed (soc (send string self).1) = sock_closed (soc self).
Proof.
  rewrite send_spec. destruct (next_fault (soc self)); [rewrite debug_out_frame|];
    by destruct self.
Qed.

Lemma debug_out_open text self :
  sock_closed (soc (debug_out text self).1) = sock_closed (soc self).
Proof. by rewrite soc_debug_out. Qed.

(** A turn of the read loop does not close the socket. *)
Lemma mainloop_body_open fuel data :
  keeps (λ self, sock_closed (soc self)) (mainloop_body fuel data).
Proof.
  assert (∀ text, keeps (λ self, sock_closed (soc self)) (debug_out text)) as Hd
    by (intros text self; apply debug_out_open).
  assert (∀ string, keeps (λ self, sock_closed (soc self)) (send string)) as Hs
    by (intros string self; apply send_open).
  unfold mainloop_body. apply keeps_bind; [|intros _].
  - destruct (startswith data "PING").
    + destruct (last (str_split data)); [|apply keeps_raise].
      apply keeps_bind; [apply Hs|intros _; apply Hd].
    + apply keeps_bind; [|intros _; apply Hd].
      intros self. rewrite handle_msg_no_dispatch.
      destruct (parse data); [apply Hd|done].
  - destruct (str_in "End of /MOTD" data); [|apply keeps_ret].
    apply keeps_bind; [apply Hd|intros _].
    apply keeps_bind; [apply keeps_gets|intros chan; apply Hs].
Qed.

(** The loop on a connected bot whose socket is open. *)
Lemma mainloop_loop_run fuel received self :
  connected self = true → sock_closed (soc self) = false →
  (mainloop_loop fuel received self).2 = Raise <$> first_failure received ∧
  core (mainloop_loop fuel received self).1 = core self ∧
  ∃ evs, sock_log (soc (mainloop_loop fuel received self).1) = sock_log (soc self) ++ evs ∧
         payload_of <$> evs =
           Some <$> concat (turn_lines (get (config self) "channel")
                              <$> texts_before received).
Proof.
  revert self. induction received as [|r rest IH]; intros self Hconn Hopen.
  - cbn [mainloop_loop]. rewrite Hconn, Hopen.
    split_and!; [done..|]. exists []. by rewrite app_nil_r.
  - cbn [mainloop_loop]. rewrite Hconn. unfold soc_recv. rewrite Hopen.
    destruct r as [data| |err].
    + destruct (mainloop_body_sends (config self) fuel data self eq_refl)
        as (Hr & Hc & evs1 & Hl1 & Hp1).
      pose proof (mainloop_body_open fuel data self) as Ho. cbn beta in Ho.
      destruct (mainloop_body fuel data self) as [b res].
      cbn [fst snd] in Hr, Hc, Hl1, Ho. subst res.
      assert (connected b = true ∧ config b = config self) as [Hconn' Hcfg]
        by (unfold core in Hc; split; congruence).
      destruct (IH b Hconn' (eq_trans Ho Hopen)) as (Hr2 & Hc2 & evs2 & Hl2 & Hp2).
      split_and!; [done|congruence|].
      exists (evs1 ++ evs2). split.
      * by rewrite Hl2, Hl1, <- app_assoc.
      * cbn [texts_before fmap list_fmap concat].
        by rewrite !fmap_app, Hp1, Hp2, Hcfg.
    + split_and!; [done..|]. exists []. by rewrite app_nil_r.
    + split_and!; [done..|]. exists []. by rewrite app_nil_r.
Qed.

(** X22.  Whatever it receives, a turn of the read loop returns: it calls
    no handler and changes nothing of the bot but the socket and the
    console.  It writes a PONG with the last word of the chunk when the
    chunk starts with [PING] (such a chunk always has a last word), then a
    JOIN for the configured channel ([JOIN None] when there is none) when
    the chunk holds [End of /MOTD]; it writes nothing else. *)
Theorem X22_turn_writes_pong_and_join (fuel : nat) (data : string) (self : Bot) :
  (mainloop_body fuel data self).2 = Ok tt ∧
  core (mainloop_body fuel data self).1 = core self ∧
  payload_of <$> written self (mainloop_body fuel data self).1 =
    Some <$> turn_lines (get (config self) "channel") data ∧
  (startswith data "PING" = true → is_Some (last (str_split data))).
Proof.
  destruct (mainloop_body_sends (config self) fuel data self eq_refl)
    as (Hr & Hc & evs & Hl & Hp).
  split_and!; [done|done| |apply ping_has_token].
  by rewrite (written_app _ _ _ Hl).
Qed.

Lemma elem_of_concat {A : Type} (x : A) (ls : list (list A)) :
  x ∈ concat ls → ∃ l, x ∈ l ∧ l ∈ ls.
Proof.
  induction ls as [|l ls IH]; simpl; [by intros ?%elem_of_nil|].
  intros [Hx|Hx]%elem_of_app.
  - exists l. split; [done|left].
  - destruct (IH Hx) as (l' & Hl' & Hin). exists l'. split; [done|by right].
Qed.

(** X23.  On a connected bot whose socket is open the read loop does not
    end by itself.  It ends, with that exception, at the first [recv] that
    raises [OSError] or the first chunk that is no UTF-8
    ([UnicodeDecodeError]); as long as the chunks decode it is still
    reading.  Up to there it calls no handler, changes nothing of the bot
    but the socket and the console, and writes, chunk after chunk, the PONG
    and JOIN lines of the turns and nothing else. *)
Theorem X23_loop_only_answers_ping_and_motd (fuel : nat) (received : list incoming)
    (self : Bot) :
  connected self = true → sock_closed (soc self) = false →
  (mainloop_loop fuel received self).2 = Raise <$> first_failure received ∧
  core (mainloop_loop fuel received self).1 = core self ∧
  payload_of <$> written self (mainloop_loop fuel received self).1 =
    Some <$> concat (turn_lines (get (config self) "channel") <$> texts_before received) ∧
  Forall loop_write (written self (mainloop_loop fuel received self).1).
Proof.
  intros Hconn Hopen.
  destruct (mainloop_loop_run fuel received self Hconn Hopen) as (Hr & Hc & evs & Hl & Hp).
  assert (payload_of <$> written self (mainloop_loop fuel received self).1 =
          Some <$> concat (turn_lines (get (config self) "channel")
                             <$> texts_before received)) as Hw
    by (by rewrite (written_app _ _ _ Hl)).
  split_and!; [done..|].
  apply Forall_forall. intros ev Hev.
  apply (list_elem_of_fmap_2 payload_of) in Hev. rewrite Hw in Hev.
  apply list_elem_of_fmap in Hev as (line & Hpay & Hline).
  exists line. split; [done|].
  apply elem_of_concat in Hline as (ls & Hline & Hls).
  apply list_elem_of_fmap in Hls as (data & -> & _).
  unfold turn_lines in Hline. apply elem_of_app in Hline as [Hline|Hline].
  - left. destruct (startswith data "PING"); [|by apply elem_of_nil in Hline].
    destruct (last (str_split data)); [|by apply elem_of_nil in Hline].
    by apply list_elem_of_singleton in Hline as ->.
  - right. destruct (str_in "End of /MOTD" data); [|by apply elem_of_nil in Hline].
    by apply list_elem_of_singleton in Hline as ->.
Qed.

Lemma X23_witness :
  let received := [Recv_text "PING :abc123"; Recv_garbled; Recv_text "PING :late"] in
  (mainloop_loop 1 received ready_bot).2 = Some (Raise UnicodeDecodeError) ∧
  payload_of <$> written ready_bot (mainloop_loop 1 received ready_bot).1 =
    [Some ("PONG :abc123" +:+ CRLF)].
Proof.
  intros received.
  assert (connected ready_bot = true) as Hconn by (vm_compute; reflexivity).
  assert (sock_closed (soc ready_bot) = false) as Hopen by (vm_compute; reflexivity).
  destruct (X23_loop_only_answers_ping_and_motd 1 received ready_bot Hconn Hopen)
    as (Hr & _ & Hw & _).
  split; [exact Hr|]. rewrite Hw. vm_compute. reflexivity.
Defined.

Lemma init_events_frame self :
  init_events self = ((init_events self).1, Ok tt) ∧
  (config (init_events self).1, connected (init_events self).1, nick (init_events self).1,
   server (init_events self).1, soc (init_events self).1, calls (init_events self).1) =
  (config self, connected self, nick self, server self, soc self, calls self).
Proof. by destruct self. Qed.

Lemma connect_open self :
  next_fault (soc self) = None → sock_closed (soc (connect self).1) = false.
Proof.
  intros Hf. rewrite connect_spec, Hf. cbv zeta.
  assert (sock_closed (soc self) = false) as Hopen
    by (unfold next_fault in Hf; by destruct (sock_closed (soc self))).
  unfold send_msg, send_action. cbn [fst].
  set (b3 := (debug_out _ _).1).
  transitivity (sock_closed (soc (send ("PRIVMSG" +:+ " " +:+
      py_str (Some ("Nickserv" +:+ " :" +:+ "identify " +:+
                    py_str (get (config self) "password")))) b3).1)).
  { by destruct (send _ b3).1. }
  rewrite send_open. unfold b3. rewrite debug_out_open, !send_open.
  by destruct self.
Qed.

(** X24.  [mainloop] never returns normally: it ends only by an exception,
    and as long as the chunks decode it is still reading.  On a server
    without a host the socket raises [TypeError] at [connect], on a socket
    that refuses the connection its [OSError]; in both cases nothing was
    written.  Otherwise [mainloop] writes the registration of [connect],
    then the PONG and JOIN lines of the turns up to the first [recv] or
    [decode] that fails, whose exception ends it, and nothing else.  In
    every case no handler is called, and the events are those
    [init_events] made. *)
Theorem X24_session_never_calls_a_handler (fuel : nat) (received : list incoming)
    (self : Bot) :
  let run := mainloop fuel received self in
  run.2 ≠ Some (Ok tt) ∧
  calls run.1 = calls self ∧
  events run.1 = events (init_events self).1 ∧
  match ip (server self), next_fault (soc self) with
  | None, _ => run.2 = Some (Raise TypeError) ∧ written self run.1 = []
  | Some _, Some err => run.2 = Some (Raise (OSError err)) ∧ written self run.1 = []
  | Some _, None =>
      run.2 = Raise <$> first_failure received ∧
      ∃ evs, written self run.1 = Connected (as_tuple (server self)) :: evs ∧
             payload_of <$> evs =
               Some <$> (registration (nick self) (get (config self) "password") ++
                         concat (turn_lines (get (config self) "channel")
                                   <$> texts_before received))
  end.
Proof.
  cbv zeta. unfold mainloop.
  destruct (init_events_frame self) as [Hi _]. rewrite Hi.
  set (b0 := (init_events self).1) in *.
  assert (config b0 = config self ∧ nick b0 = nick self ∧ server b0 = server self ∧
          soc b0 = soc self ∧ calls b0 = calls self)
    as (Hcfg & Hnick & Hsrv & Hsoc & Hcalls) by done.
  clearbody b0.
  assert (addr_readable (as_tuple (server b0)) =
          match ip (server self) with Some _ => true | None => false end) as ->
    by (by rewrite Hsrv).
  destruct (ip (server self)) as [host|] eqn:Hip.
  2: { cbn [fst snd]. split_and!; [done..|].
       apply written_app. by rewrite Hsoc, app_nil_r. }
  destruct (next_fault (soc self)) as [err|] eqn:Hfault.
  - pose proof (connect_spec b0) as Hcon. rewrite Hsoc, Hfault in Hcon.
    rewrite Hcon. cbn [fst snd]. split_and!; [done|by destruct b0|by destruct b0|done|].
    apply written_app. rewrite app_nil_r. destruct b0. simpl in *. by subst.
  - rewrite <- Hsoc in Hfault.
    destruct (connect_effect b0 Hfault) as (Hr & Hconn1 & Hk & evs1 & Hl1 & Hp1).
    pose proof (connect_open b0 Hfault) as Hopen1.
    pose proof (f_equal (λ t, t.1.1.1) Hk) as Hcfg1.
    pose proof (f_equal (λ t, t.1.1.2) Hk) as Hnick1.
    pose proof (f_equal (λ t, t.1.2) Hk) as Hev1.
    pose proof (f_equal snd Hk) as Hcalls1.
    cbn [fst snd] in Hcfg1, Hnick1, Hev1, Hcalls1. clear Hk.
    destruct (connect b0) as [b1 res]. cbn [fst snd] in *. subst res.
    destruct (mainloop_loop_run fuel received b1 Hconn1 Hopen1)
      as (Hr2 & Hc2 & evs2 & Hl2 & Hp2).
    set (b2 := (mainloop_loop fuel received b1).1) in *. clearbody b2.
    assert (calls b2 = calls b1 ∧ events b2 = events b1) as [Hcalls2 Hev2]
      by (unfold core in Hc2; split; congruence).
    split_and!; [|congruence|congruence|done|].
    + rewrite Hr2. by destruct (first_failure received).
    + exists (evs1 ++ evs2). split.
      * apply written_app. rewrite Hl2, Hl1, Hsoc, Hsrv, <- app_assoc. reflexivity.
      * rewrite !fmap_app, Hp1, Hp2. congruence.
Qed.
